(** * Answer-sheet evaluation system: client-side orchestration, verified

    A shallow embedding of the TypeScript client of the answer-sheet
    evaluation system (the processing dashboard and the API service), with
    the properties its specification states about it.

    - [Js]: the fragment of JavaScript values the code manipulates
      (JSON values, [undefined], truthiness, the [||] operator).
    - [Dashboard]: [ProcessingDashboard.tsx]; the per-script update handler
      and the WebSocket life cycle of the component.
    - [Api]: [services/api.ts]; token storage and the response handler.
    - [Upload]: the file selection of the upload page.
    - [Backend]: the server-side operations, which are not part of the
      client sources and are modelled from the specification. *)

From Stdlib Require Import ZArith String List Bool QArith.
From stdpp Require Import gmap strings list fin_maps sorting.

#[local] Set Warnings "-register-all".

Local Open Scope Z_scope.
Local Open Scope string_scope.

(** ** JavaScript values *)

Module Js.

(** A JSON value, as [JSON.parse] and [response.json()] produce it. Numbers
    are restricted to integers: the code copies and compares them and does no
    arithmetic. *)
Inductive json : Type :=
| JNull
| JBool (b : bool)
| JNum (z : Z)
| JStr (s : string)
| JArr (l : list json)
| JObj (l : list (string * json)).

(** [undefined] is the absence of a value. *)
Definition jsval := option json.

(** ToBoolean. *)
Definition truthy (v : json) : bool :=
  match v with
  | JNull => false
  | JBool b => b
  | JNum z => negb (Z.eqb z 0)
  | JStr s => negb (String.eqb s "")
  | JArr _ => true
  | JObj _ => true
  end.

Definition truthy_val (v : jsval) : bool :=
  match v with
  | Some j => truthy j
  | None => false
  end.

(** [a || b] *)
Definition js_or (a b : jsval) : jsval :=
  if truthy_val a then a else b.

(** [n || m] on numbers: [0] is falsy. *)
Definition num_or (a : option Z) (b : Z) : Z :=
  match a with
  | Some n => if Z.eqb n 0 then b else n
  | None => b
  end.

(** Own-property lookup in an object literal: the last binding of a key
    wins, as in [JSON.parse]. *)
Fixpoint assoc (k : string) (l : list (string * json)) : jsval :=
  match l with
  | [] => None
  | (k', v) :: rest =>
      match assoc k rest with
      | Some w => Some w
      | None => if String.eqb k k' then Some v else None
      end
  end.

End Js.

Import Js.

(** ** ProcessingDashboard.tsx *)

Module Dashboard.

(** [ProcessingUpdate['status']] *)
Inductive UpdateStatus := upd_processing | upd_completed | upd_failed.

(** [ScriptProcessingState['status']] *)
Inductive Status := processing | completed | failed | pending.

Definition status_of (s : UpdateStatus) : Status :=
  match s with
  | upd_processing => processing
  | upd_completed => completed
  | upd_failed => failed
  end.

#[global] Instance UpdateStatus_eq_dec : EqDecision UpdateStatus.
Proof. solve_decision. Defined.

#[global] Instance Status_eq_dec : EqDecision Status.
Proof. solve_decision. Defined.

(** [interface ProcessingUpdate]; the fields carry the prefix [u_]. *)
Record ProcessingUpdate := {
  u_script_id : string;
  u_status : UpdateStatus;
  u_stage : string;
  u_progress : Z;
  u_stage_description : string;
  u_estimated_remaining_time : Z;
  u_details : option (gmap string json);
  u_result : option (gmap string json);
  u_error : option string;
  u_timestamp : Z
}.

(** [interface ScriptProcessingState] *)
Record ScriptProcessingState := {
  script_id : string;
  script_name : json;
  student_name : json;
  current_stage : string;
  progress : Z;
  status : Status;
  stage_description : string;
  estimated_remaining_time : Z;
  details : gmap string json;
  result : option (gmap string json);
  error : option string;
  started_at : Z;
  completed_at : option Z
}.

(** [update.details?.k] *)
Definition details_get (d : option (gmap string json)) (k : string) : jsval :=
  d ≫= (λ m, m !! k).

(** [{ ...existing?.details, ...update.details }]: the later spread wins. *)
Definition spread_details (existing : option (gmap string json))
    (upd : option (gmap string json)) : gmap string json :=
  default ∅ upd ∪ default ∅ existing.

(** [x || y || 'Unknown'] *)
Definition name_or_unknown (from_update from_existing : jsval) : json :=
  default (JStr "Unknown") (js_or (js_or from_update from_existing) (Some (JStr "Unknown"))).

(** The object literal [updatedState] of [updateScriptProcessing]. *)
Definition updatedState (existing : option ScriptProcessingState)
    (update : ProcessingUpdate) : ScriptProcessingState :=
  {| script_id := u_script_id update;
     script_name :=
       name_or_unknown (details_get (u_details update) "script_name")
                       (script_name <$> existing);
     student_name :=
       name_or_unknown (details_get (u_details update) "student_name")
                       (student_name <$> existing);
     current_stage := u_stage update;
     progress := u_progress update;
     status := status_of (u_status update);
     stage_description := u_stage_description update;
     estimated_remaining_time := u_estimated_remaining_time update;
     details := spread_details (details <$> existing) (u_details update);
     result := u_result update;
     error := u_error update;
     started_at := num_or (started_at <$> existing) (u_timestamp update);
     completed_at :=
       if decide (u_status update = upd_completed)
       then Some (u_timestamp update)
       else existing ≫= completed_at |}.

(** The updater passed to [setProcessingScripts]: copy the map, build the
    new entry from the update and the existing entry, store it. *)
Definition updateScriptProcessing (update : ProcessingUpdate)
    (prev : gmap string ScriptProcessingState) : gmap string ScriptProcessingState :=
  <[u_script_id update := updatedState (prev !! u_script_id update) update]> prev.

(** The completion callback: called with [update.result] when the update is
    a completion, the prop is given and the result is present. *)
Definition completion_calls (onProcessingComplete : bool)
    (update : ProcessingUpdate) : list (gmap string json) :=
  match u_result update with
  | Some r =>
      if bool_decide (u_status update = upd_completed) && onProcessingComplete
      then [r] else []
  | None => []
  end.

(** Applying updates in arrival order. *)
Definition apply_updates (us : list ProcessingUpdate)
    (m : gmap string ScriptProcessingState) : gmap string ScriptProcessingState :=
  foldl (λ acc u, updateScriptProcessing u acc) m us.

(** The progress stored for a script after each update of a sequence. *)
Fixpoint progress_history (sid : string) (us : list ProcessingUpdate)
    (m : gmap string ScriptProcessingState) : list (option Z) :=
  match us with
  | [] => []
  | u :: rest =>
      let m' := updateScriptProcessing u m in
      (progress <$> m' !! sid) :: progress_history sid rest m'
  end.

(** A stored status is terminal when it is [completed] or [failed]. *)
Definition is_terminal (s : Status) : bool :=
  match s with
  | completed | failed => true
  | _ => false
  end.

(** The canonical triple of a stored script. *)
Definition canonical (st : ScriptProcessingState) : string * Status * Z :=
  (current_stage st, status st, progress st).

Definition update_canonical (u : ProcessingUpdate) : string * Status * Z :=
  (u_stage u, status_of (u_status u), u_progress u).

(** *** The WebSocket life cycle of the component *)

(** [WebSocket.readyState] *)
Inductive ReadyState := CONNECTING | OPEN | CLOSING | CLOSED.

#[global] Instance ReadyState_eq_dec : EqDecision ReadyState.
Proof. solve_decision. Defined.

(** The messages the component sends. *)
Inductive Outgoing :=
| subscribe_session (session_id : string)
| subscribe_script (script_id : string).

#[global] Instance Outgoing_eq_dec : EqDecision Outgoing.
Proof. solve_decision. Defined.

(** The messages [handleWebSocketMessage] distinguishes by [data.type];
    [unparsable] is a frame on which [JSON.parse] throws. *)
Inductive Incoming :=
| script_update (u : ProcessingUpdate)
| session_update
| connection_established (connection_id : string)
| other_type
| unparsable.

(** [ProcessingDashboardProps]; the callback is abstracted to its presence. *)
Record Props := {
  sessionId : option string;
  onProcessingComplete : bool
}.

(** A socket created by [new WebSocket(wsUrl)]. Its handlers are closures of
    the [connectWebSocket] that created it, which holds the props of the
    render that memoised it. *)
Record Socket := {
  readyState : ReadyState;
  ws_props : Props;
  sent : list Outgoing
}.

(** A timer set by [setTimeout(connectWebSocket, 3000)]. *)
Record Timer := {
  delay : Z;
  t_props : Props;
  t_pending : bool
}.

(** The four [useState] cells. *)
Record State := {
  processingScripts : gmap string ScriptProcessingState;
  isConnected : bool;
  connectionError : option string;
  websocket : option nat
}.

(** What lives outside React: sockets, timers and the calls made to the
    [onProcessingComplete] prop; sockets and timers are named by their
    position. *)
Record World := {
  sockets : list Socket;
  timers : list Timer;
  completions : list (gmap string json)
}.

(** A dashboard instance. [cleanup_websocket] is the value of [websocket]
    that the cleanup of the current [useEffect] closed over: the one of the
    render in which the effect ran. *)
Record Component := {
  props : Props;
  state : State;
  mounted : bool;
  cleanup_websocket : option nat;
  world : World
}.

Definition with_state (f : State → State) (c : Component) : Component :=
  {| props := props c; state := f (state c); mounted := mounted c;
     cleanup_websocket := cleanup_websocket c; world := world c |}.

Definition with_world (f : World → World) (c : Component) : Component :=
  {| props := props c; state := state c; mounted := mounted c;
     cleanup_websocket := cleanup_websocket c; world := f (world c) |}.

(** A state setter does nothing once the component is unmounted. *)
Definition set_state (f : State → State) (c : Component) : Component :=
  if mounted c then with_state f c else c.

Definition setProcessingScripts
    (f : gmap string ScriptProcessingState → gmap string ScriptProcessingState)
    : Component → Component :=
  set_state (λ s, {| processingScripts := f (processingScripts s);
                     isConnected := isConnected s;
                     connectionError := connectionError s;
                     websocket := websocket s |}).

Definition setIsConnected (b : bool) : Component → Component :=
  set_state (λ s, {| processingScripts := processingScripts s;
                     isConnected := b;
                     connectionError := connectionError s;
                     websocket := websocket s |}).

Definition setConnectionError (e : option string) : Component → Component :=
  set_state (λ s, {| processingScripts := processingScripts s;
                     isConnected := isConnected s;
                     connectionError := e;
                     websocket := websocket s |}).

Definition setWebsocket (w : option nat) : Component → Component :=
  set_state (λ s, {| processingScripts := processingScripts s;
                     isConnected := isConnected s;
                     connectionError := connectionError s;
                     websocket := w |}).

Definition alter_socket (f : Socket → Socket) (c : nat) : Component → Component :=
  with_world (λ w, {| sockets := alter f c (sockets w);
                      timers := timers w;
                      completions := completions w |}).

Definition set_readyState (r : ReadyState) (k : Socket) : Socket :=
  {| readyState := r; ws_props := ws_props k; sent := sent k |}.

Definition push_sent (m : Outgoing) (k : Socket) : Socket :=
  {| readyState := readyState k; ws_props := ws_props k; sent := sent k ++ [m] |}.

Definition socket_state (c : nat) (d : Component) : option ReadyState :=
  readyState <$> sockets (world d) !! c.

(** [ws.send(m)]: the message leaves only on an open socket. *)
Definition ws_send (c : nat) (m : Outgoing) (d : Component) : Component :=
  if decide (socket_state c d = Some OPEN) then alter_socket (push_sent m) c d else d.

(** [ws.close()]: starts the closing handshake of a socket that is not
    already closing or closed; [onclose] runs later. *)
Definition ws_close (c : nat) (d : Component) : Component :=
  match socket_state c d with
  | Some CONNECTING | Some OPEN => alter_socket (set_readyState CLOSING) c d
  | _ => d
  end.

(** [setTimeout(connectWebSocket, 3000)] *)
Definition setTimeout (ms : Z) (p : Props) : Component → Component :=
  with_world (λ w, {| sockets := sockets w;
                      timers := timers w ++ [{| delay := ms; t_props := p; t_pending := true |}];
                      completions := completions w |}).

(** [if (sessionId)] on an optional string: set and not empty. *)
Definition session_given (p : Props) : option string :=
  match sessionId p with
  | Some s => if String.eqb s "" then None else Some s
  | None => None
  end.

(** What [onopen] sends. *)
Definition subscriptions_on_open (p : Props) : list Outgoing :=
  match session_given p with
  | Some sid => [subscribe_session sid]
  | None => []
  end.

(** [connectWebSocket]: create the socket, install the handlers, store it. *)
Definition connectWebSocket (p : Props) (d : Component) : Component :=
  let id := length (sockets (world d)) in
  setWebsocket (Some id)
    (with_world (λ w, {| sockets := sockets w ++
                           [{| readyState := CONNECTING; ws_props := p; sent := [] |}];
                         timers := timers w;
                         completions := completions w |}) d).

(** [ws.onopen] *)
Definition onopen (c : nat) (p : Props) (d : Component) : Component :=
  let d := setConnectionError None (setIsConnected true d) in
  match session_given p with
  | Some sid => ws_send c (subscribe_session sid) d
  | None => d
  end.

(** [ws.onclose] *)
Definition onclose (p : Props) (d : Component) : Component :=
  setTimeout 3000 p (setIsConnected false d).

(** [ws.onerror] *)
Definition onerror (d : Component) : Component :=
  setConnectionError (Some "WebSocket connection failed") d.

(** The state setter of [updateScriptProcessing] with its callback. *)
Definition applyScriptUpdate (p : Props) (u : ProcessingUpdate) (d : Component) : Component :=
  if mounted d then
    with_world (λ w, {| sockets := sockets w;
                        timers := timers w;
                        completions := completions w ++
                                       completion_calls (onProcessingComplete p) u |})
      (setProcessingScripts (updateScriptProcessing u) d)
  else d.

(** [ws.onmessage] with [handleWebSocketMessage]. *)
Definition onmessage (p : Props) (data : Incoming) (d : Component) : Component :=
  match data with
  | script_update u => applyScriptUpdate p u d
  | _ => d
  end.

(** [subscribeToScript] *)
Definition subscribeToScript (scriptId : string) (d : Component) : Component :=
  match websocket (state d) with
  | Some w => if isConnected (state d) then ws_send w (subscribe_script scriptId) d else d
  | None => d
  end.

(** The cleanup returned by the effect: [if (websocket) websocket.close()]
    on the value it closed over. *)
Definition effect_cleanup (d : Component) : Component :=
  match cleanup_websocket d with
  | Some w => ws_close w d
  | None => d
  end.

(** Running the effect at a render: [connectWebSocket()], and a cleanup
    that remembers the [websocket] of this render. *)
Definition run_effect (d : Component) : Component :=
  let captured := websocket (state d) in
  let d := connectWebSocket (props d) d in
  {| props := props d; state := state d; mounted := mounted d;
     cleanup_websocket := captured; world := world d |}.

(** The first render and its effect. *)
Definition mount (p : Props) : Component :=
  run_effect
    {| props := p;
       state := {| processingScripts := ∅; isConnected := false;
                   connectionError := None; websocket := None |};
       mounted := true;
       cleanup_websocket := None;
       world := {| sockets := []; timers := []; completions := [] |} |}.

(** What can happen to a mounted or unmounted instance. *)
Inductive Event :=
| PropsChange (p : Props)
| Unmount
| WsOpen (c : nat)
| WsMessage (c : nat) (data : Incoming)
| WsError (c : nat)
| WsClose (c : nat)
| TimerFire (t : nat)
| SubscribeToScript (scriptId : string).

Definition set_props (p : Props) (d : Component) : Component :=
  {| props := p; state := state d; mounted := mounted d;
     cleanup_websocket := cleanup_websocket d; world := world d |}.

Definition set_unmounted (d : Component) : Component :=
  {| props := props d; state := state d; mounted := false;
     cleanup_websocket := cleanup_websocket d; world := world d |}.

Definition fire_timer (t : nat) : Component → Component :=
  with_world (λ w, {| sockets := sockets w;
                      timers := alter (λ k, {| delay := delay k; t_props := t_props k;
                                               t_pending := false |}) t (timers w);
                      completions := completions w |}).

Definition step (e : Event) (d : Component) : Component :=
  match e with
  | PropsChange p =>
      if mounted d then
        if decide (sessionId p = sessionId (props d)) then set_props p d
        else run_effect (effect_cleanup (set_props p d))
      else d
  | Unmount =>
      if mounted d then set_unmounted (effect_cleanup d) else d
  | WsOpen c =>
      match sockets (world d) !! c with
      | Some k =>
          if decide (readyState k = CONNECTING)
          then onopen c (ws_props k) (alter_socket (set_readyState OPEN) c d)
          else d
      | None => d
      end
  | WsMessage c data =>
      match sockets (world d) !! c with
      | Some k => if decide (readyState k = OPEN) then onmessage (ws_props k) data d else d
      | None => d
      end
  | WsError c =>
      match sockets (world d) !! c with
      | Some k => if decide (readyState k = CLOSED) then d else onerror d
      | None => d
      end
  | WsClose c =>
      match sockets (world d) !! c with
      | Some k =>
          if decide (readyState k = CLOSED) then d
          else onclose (ws_props k) (alter_socket (set_readyState CLOSED) c d)
      | None => d
      end
  | TimerFire t =>
      match timers (world d) !! t with
      | Some k => if t_pending k then connectWebSocket (t_props k) (fire_timer t d) else d
      | None => d
      end
  | SubscribeToScript scriptId =>
      if mounted d then subscribeToScript scriptId d else d
  end.

Definition run (es : list Event) (d : Component) : Component :=
  foldl (λ acc e, step e acc) d es.

(** Sockets that are connecting or open. *)
Definition is_live (k : Socket) : bool :=
  match readyState k with
  | CONNECTING | OPEN => true
  | _ => false
  end.

Definition live_sockets (d : Component) : nat :=
  length (filter (λ k, is_live k = true) (sockets (world d))).

Definition sent_on (c : nat) (d : Component) : list Outgoing :=
  default [] (sent <$> sockets (world d) !! c).

(** [n] rounds of: the newest socket closes, then the timer it set fires. *)
Fixpoint reconnect_rounds (first n : nat) : list Event :=
  match n with
  | O => []
  | S n' => WsClose first :: TimerFire first :: reconnect_rounds (S first) n'
  end.

End Dashboard.

(** ** services/api.ts *)

Module Api.

(** [localStorage] *)
Abbreviation Storage := (gmap string string).

Module TokenManager.

Definition TOKEN_KEY : string := "auth_token".

Definition setToken (token : string) (st : Storage) : Storage :=
  <[TOKEN_KEY := token]> st.

Definition getToken (st : Storage) : option string := st !! TOKEN_KEY.

Definition removeToken (st : Storage) : Storage := delete TOKEN_KEY st.

Definition isAuthenticated (st : Storage) : bool := bool_decide (is_Some (getToken st)).

End TokenManager.

(** A fetch [Response]: its status and what [response.json()] yields,
    [None] when the body is not JSON and the promise rejects. *)
Record Response := {
  resp_status : Z;
  resp_json : option json
}.

(** [response.ok]: the status is in the range 200 to 299. *)
Definition ok (r : Response) : bool :=
  Z.leb 200 (resp_status r) && Z.leb (resp_status r) 299.

(** What a call can throw. [Error v] is [new Error(v)], with the argument
    kept as the value it is before it is turned into the message string. *)
Inductive Exn :=
| Error (message : json)
| TypeError
| SyntaxError.

Inductive Outcome (A : Type) :=
| Returned (v : A)
| Thrown (e : Exn).
Arguments Returned {A} v.
Arguments Thrown {A} e.

(** [v.k] for a JSON value [v]: reading a property of [null] throws, an
    object yields its binding, any other value has no such property. *)
Definition get_prop (v : json) (k : string) : Outcome jsval :=
  match v with
  | JNull => Thrown TypeError
  | JObj l => Returned (assoc k l)
  | _ => Returned None
  end.

(** [errorData.detail || errorData.message || 'API request failed'] *)
Definition error_message (errorData : json) : Outcome json :=
  match get_prop errorData "detail", get_prop errorData "message" with
  | Returned d, Returned m =>
      Returned (default (JStr "API request failed")
                  (js_or (js_or d m) (Some (JStr "API request failed"))))
  | Thrown e, _ => Thrown e
  | _, Thrown e => Thrown e
  end.

(** The first truthy value of [detail] and [message], else the default. *)
Definition detail_or_message (l : list (string * json)) : json :=
  match assoc "detail" l with
  | Some v => if truthy v then v else
      match assoc "message" l with
      | Some w => if truthy w then w else JStr "API request failed"
      | None => JStr "API request failed"
      end
  | None =>
      match assoc "message" l with
      | Some w => if truthy w then w else JStr "API request failed"
      | None => JStr "API request failed"
      end
  end.

(** [response.json().catch(() => ({ message: 'Network error' }))] *)
Definition errorData_of (r : Response) : json :=
  default (JObj [("message", JStr "Network error")]) (resp_json r).

(** [ApiClient.handleResponse] *)
Definition handleResponse (response : Response) (st : Storage) : Outcome json * Storage :=
  if negb (ok response) then
    if Z.eqb (resp_status response) 401 then
      (Thrown (Error (JStr "Authentication failed. Please login again.")),
       TokenManager.removeToken st)
    else
      match error_message (errorData_of response) with
      | Returned v => (Thrown (Error v), st)
      | Thrown e => (Thrown e, st)
      end
  else
    match resp_json response with
    | Some v => (Returned v, st)
    | None => (Thrown SyntaxError, st)
    end.

(** A [FormData] entry. *)
Inductive FormValue (F : Type) :=
| form_text (s : string)
| form_file (f : F).
Arguments form_text {F} s.
Arguments form_file {F} f.

(** The form [scriptsApi.uploadBatch] posts to [/scripts/upload-batch]. *)
Definition uploadBatch_form {F : Type} (sessionId : string) (files : list F)
    : list (string * FormValue F) :=
  ("session_id", form_text sessionId) :: map (λ f, ("files", form_file f)) files.

End Api.

(** ** The upload page: file selection *)

Module Upload.

(** The fields of a browser [File] that the selection reads. *)
Record File := {
  file_name : string;
  file_type : string;
  file_size : Z
}.

Record Toast := {
  title : string;
  description : string;
  variant : string
}.

(** The 10MB limit, [10 * 1024 * 1024]. *)
Definition MAX_SIZE : Z := 10 * 1024 * 1024.

(** The callback of [fileArray.filter]: the toast it raises, if any, and
    whether the file is kept. *)
Definition validate (file : File) : option Toast :=
  if negb (String.prefix "image/" (file_type file)) then
    Some {| title := "Invalid File";
            description := file_name file ++ " is not an image file";
            variant := "destructive" |}
  else if Z.ltb MAX_SIZE (file_size file) then
    Some {| title := "File Too Large";
            description := file_name file ++ " is larger than 10MB";
            variant := "destructive" |}
  else None.

Definition keeps (file : File) : bool :=
  match validate file with
  | None => true
  | Some _ => false
  end.

Fixpoint validFiles (fileArray : list File) : list File :=
  match fileArray with
  | [] => []
  | f :: rest => if keeps f then f :: validFiles rest else validFiles rest
  end.

Definition toasts (fileArray : list File) : list Toast :=
  omap validate fileArray.

(** [handleFileSelect]: on [null] nothing changes; otherwise the selection
    is replaced by the files that pass. The result is the new
    [selectedFiles] and the toasts raised. *)
Definition handleFileSelect (files : option (list File)) (selectedFiles : list File)
    : list File * list Toast :=
  match files with
  | None => (selectedFiles, [])
  | Some fileArray => (validFiles fileArray, toasts fileArray)
  end.

(** Both conditions of an acceptable upload. *)
Definition well_formed (file : File) : Prop :=
  String.prefix "image/" (file_type file) = true ∧ (file_size file <= MAX_SIZE)%Z.

End Upload.

(** ** The server side, from the specification *)

Module Backend.

Local Open Scope Q_scope.

(** *** Confidence triage engine *)

(** Modelled from the spec: the result handed to [evaluate]; the triage
    engine is server code and not among the client sources. The fields are
    the metrics the spec's five conditions read. *)
Record ScriptResult := {
  sr_script_id : string;
  ocr_confidence : Q;
  evaluation_confidence : Q;
  verification_confidence : Q;
  final_score : Q;
  processing_error : option string
}.

(** Modelled from the spec: the five reasons of section 4.3, in its order. *)
Inductive Reason :=
| ocr_low
| evaluation_low
| verification_low
| below_passing
| unrecoverable_error.

#[global] Instance Reason_eq_dec : EqDecision Reason.
Proof. solve_decision. Defined.

(** Modelled from the spec: the wording of a reason, where the spec gives
    one (section 8 names two). *)
Definition reason_text (r : Reason) : option string :=
  match r with
  | ocr_low => Some "OCR confidence below threshold"%string
  | below_passing => Some "below passing marks"%string
  | _ => None
  end.

(** Modelled from the spec: the status of a ReviewEntry, pending or
    resolved. *)
Inductive ReviewStatus := review_pending | review_resolved.

#[global] Instance ReviewStatus_eq_dec : EqDecision ReviewStatus.
Proof. solve_decision. Defined.

(** Modelled from the spec: the ReviewEntry of section 3, without the time
    stamps and the priority, which the spec does not define. *)
Record ReviewEntry := {
  re_script_id : string;
  reasons : list Reason;
  review_status : ReviewStatus;
  original_score : Q;
  manual_score : option Q;
  reviewer_notes : string
}.

(** Modelled from the spec: the three confidence thresholds of section 4.3
    (the README lists the same values under "Confidence Thresholds"). *)
Definition OCR_THRESHOLD : Q := 0.6.
Definition EVALUATION_THRESHOLD : Q := 0.7.
Definition VERIFICATION_THRESHOLD : Q := 0.8.

Definition flag_if (b : bool) (r : Reason) : list Reason := if b then [r] else [].

(** [x < y] on rationals, as a boolean. *)
Definition Qltb (x y : Q) : bool := negb (Qle_bool y x).

(** Modelled from the spec: all the matching reasons, recorded together. *)
Definition matching_reasons (passing_marks : Q) (r : ScriptResult) : list Reason :=
  flag_if (Qltb (ocr_confidence r) OCR_THRESHOLD) ocr_low ++
  flag_if (Qltb (evaluation_confidence r) EVALUATION_THRESHOLD) evaluation_low ++
  flag_if (Qltb (verification_confidence r) VERIFICATION_THRESHOLD) verification_low ++
  flag_if (Qltb (final_score r) passing_marks) below_passing ++
  flag_if (bool_decide (is_Some (processing_error r))) unrecoverable_error.

(** Modelled from the spec: [evaluate(scriptResult) → ReviewEntry | none]
    of section 4.3, for a scheme with the given passing marks. *)
Definition evaluate (passing_marks : Q) (r : ScriptResult) : option ReviewEntry :=
  match matching_reasons passing_marks r with
  | [] => None
  | rs => Some {| re_script_id := sr_script_id r;
                  reasons := rs;
                  review_status := review_pending;
                  original_score := final_score r;
                  manual_score := None;
                  reviewer_notes := "" |}
  end.

(** *** Manual review queue *)

(** Modelled from the spec: the ways [resolve] fails; the conflict is the
    ReviewConflictError of section 7. *)
Inductive ReviewError :=
| ReviewNotFound
| ReviewConflictError.

(** Modelled from the spec: [resolve(reviewId, manualScore, notes)] of
    section 4.5 on the stored entries; the server's handler of
    [/evaluations/{review_id}/manual-review] is not among the client
    sources. An already resolved entry is rejected and the store is left as
    it is. *)
Definition resolve (reviewId : string) (manualScore : Q) (notes : string)
    (store : gmap string ReviewEntry) : (ReviewEntry + ReviewError) * gmap string ReviewEntry :=
  match store !! reviewId with
  | None => (inr ReviewNotFound, store)
  | Some e =>
      match review_status e with
      | review_resolved => (inr ReviewConflictError, store)
      | review_pending =>
          let e' := {| re_script_id := re_script_id e;
                       reasons := reasons e;
                       review_status := review_resolved;
                       original_score := original_score e;
                       manual_score := Some manualScore;
                       reviewer_notes := notes |} in
          (inl e', <[reviewId := e']> store)
      end
  end.

(** *** Dispatch scheduler *)

Section Dispatch.

(** The submitted files and the pipeline run on each of them, an external
    collaborator that ends in a terminal result. *)
Variable File : Type.
Variable Result : Type.

(** Modelled from the spec: a terminal result, completed or failed. *)
Inductive Terminal :=
| terminal_completed (r : Result)
| terminal_failed (error : string).

Variable pipeline : File → Terminal.

(** Modelled from the spec: a per-file outcome of [dispatch], a terminal
    result inline or the handle of a queued task. *)
Inductive PerFileOutcome :=
| inline_result (t : Terminal)
| task_handle (task_id : nat).

(** Modelled from the spec: the durable work queue, an external
    collaborator: the tasks handed to it and the next free handle. *)
Record WorkQueue := {
  next_task : nat;
  tasks : list (nat * File)
}.

(** Modelled from the spec: handing one file to the queue as a unit of
    work of its own, and a whole batch file by file. *)
Definition enqueue (f : File) (q : WorkQueue) : nat * WorkQueue :=
  (next_task q, {| next_task := S (next_task q); tasks := tasks q ++ [(next_task q, f)] |}).

Fixpoint enqueue_all (batch : list File) (q : WorkQueue) : list PerFileOutcome * WorkQueue :=
  match batch with
  | [] => ([], q)
  | f :: rest =>
      let '(h, q1) := enqueue f q in
      let '(hs, q2) := enqueue_all rest q1 in
      (task_handle h :: hs, q2)
  end.

(** Modelled from the spec: the configured threshold T, default 5 (the
    README's [REAL_TIME_THRESHOLD=5]). *)
Definition REAL_TIME_THRESHOLD : nat := 5.

(** Modelled from the spec: [dispatch(batch) → PerFileOutcome[]] of
    section 4.2; the server's handler of [/scripts/upload-batch] is not
    among the client sources. The mode is chosen once, from the size of the
    batch of accepted files. *)
Definition dispatch (batch : list File) (q : WorkQueue) : list PerFileOutcome * WorkQueue :=
  if (length batch <=? REAL_TIME_THRESHOLD)%nat
  then (map (λ f, inline_result (pipeline f)) batch, q)
  else enqueue_all batch q.

Definition handles (os : list PerFileOutcome) : list nat :=
  omap (λ o, match o with task_handle h => Some h | inline_result _ => None end) os.

Definition is_inline (o : PerFileOutcome) : bool :=
  match o with inline_result _ => true | task_handle _ => false end.

End Dispatch.

Arguments terminal_completed {Result} r.
Arguments terminal_failed {Result} error.
Arguments inline_result {Result} t.
Arguments task_handle {Result} task_id.
Arguments next_task {File} w.
Arguments tasks {File} w.
Arguments enqueue {File} f q.
Arguments enqueue_all {File Result} batch q.
Arguments dispatch {File Result} pipeline batch q.
Arguments handles {Result} os.
Arguments is_inline {Result} o.

End Backend.

(** ** ProcessingDashboard.tsx: what a script card shows *)

Module View.

Import Dashboard.

(** [interface ProcessingStage], without the icon component. *)
Record ProcessingStage := {
  stage_id : string;
  stage_name : string;
  stage_text : string;
  estimatedTime : Z
}.

(** [PROCESSING_STAGES] *)
Definition PROCESSING_STAGES : list ProcessingStage :=
  [ {| stage_id := "database_connected"; stage_name := "Database";
       stage_text := "Connecting to database and validating script";
       estimatedTime := 2 |};
    {| stage_id := "image_validated"; stage_name := "Image Validation";
       stage_text := "Validating image file and format";
       estimatedTime := 3 |};
    {| stage_id := "ocr_completed"; stage_name := "OCR Processing";
       stage_text := "Extracting text using OpenAI Vision API";
       estimatedTime := 20 |};
    {| stage_id := "evaluation_completed"; stage_name := "AI Evaluation";
       stage_text := "Evaluating answers with AI semantic analysis";
       estimatedTime := 25 |};
    {| stage_id := "verification_completed"; stage_name := "Verification";
       stage_text := "Verifying results with Gemini AI";
       estimatedTime := 15 |};
    {| stage_id := "completed"; stage_name := "Complete";
       stage_text := "All processing completed successfully";
       estimatedTime := 0 |} ].

(** [Array.prototype.findIndex]: the first position that passes, else [-1]. *)
Fixpoint findIndex {A : Type} (p : A → bool) (l : list A) : Z :=
  match l with
  | [] => -1
  | x :: rest =>
      if p x then 0
      else let i := findIndex p rest in
           if Z.ltb i 0 then -1 else i + 1
  end.

(** The object [getStageProgress] returns. *)
Record StageProgress := {
  sp_completed : Z;
  sp_current : Z;
  sp_total : Z
}.

(** [getStageProgress] *)
Definition getStageProgress (currentStage : string) : StageProgress :=
  let stageIndex := findIndex (λ s, String.eqb (stage_id s) currentStage) PROCESSING_STAGES in
  {| sp_completed := Z.max 0 stageIndex;
     sp_current := if Z.leb 0 stageIndex then stageIndex else 0;
     sp_total := Z.of_nat (length PROCESSING_STAGES) |}.

(** The colour class of the indicator at [index] in [renderScriptCard]:
    [isCompleted] is tested first, then [isCurrent]; the rest is grey. *)
Inductive Indicator := ind_completed | ind_current | ind_pending.

Definition indicator (stageProgress : StageProgress) (index : Z) : Indicator :=
  if Z.ltb index (sp_completed stageProgress) then ind_completed
  else if Z.eqb index (sp_current stageProgress) then ind_current
  else ind_pending.

(** The indicators of the six stages, in the order of [PROCESSING_STAGES]. *)
Definition indicators (currentStage : string) : list Indicator :=
  imap (λ index _, indicator (getStageProgress currentStage) (Z.of_nat index))
       PROCESSING_STAGES.

(** The text [formatTimeRemaining] returns: a fixed text, or a template
    with the numbers that fill its holes. *)
Inductive TimeText :=
| almost_done
| minutes_seconds (mins secs : Z)
| seconds_only (secs : Z).


(** The template literals, given the conversion of a number to text. *)
Definition time_text (show : Z → string) (t : TimeText) : string :=
  match t with
  | almost_done => "Almost done..."
  | minutes_seconds mins secs => show mins ++ "m " ++ show secs ++ "s remaining"
  | seconds_only secs => show secs ++ "s remaining"
  end.

(** Whether the card shows the time estimate at all:
    [script.status === 'processing' && script.estimated_remaining_time > 0]. *)
Definition shows_estimate (script : ScriptProcessingState) : bool :=
  bool_decide (status script = processing) && Z.ltb 0 (estimated_remaining_time script).

(** [.sort((a, b) => b.started_at - a.started_at)]: a stable sort, the most
    recently started script first. [place a l] puts [a] in front of the
    first script that did not start later than it. *)
Fixpoint place (a : ScriptProcessingState) (l : list ScriptProcessingState)
    : list ScriptProcessingState :=
  match l with
  | [] => [a]
  | b :: rest =>
      if Z.leb (started_at b) (started_at a) then a :: b :: rest
      else b :: place a rest
  end.

Definition sort_by_start (l : list ScriptProcessingState) : list ScriptProcessingState :=
  foldr place [] l.

End View.

(** ** services/api.ts: requests and the auth API *)

Module Auth.

Import Api.

(** [if (token)] on the stored token: present and not empty. *)
Definition token_given (st : Storage) : option string :=
  match TokenManager.getToken st with
  | Some t => if String.eqb t "" then None else Some t
  | None => None
  end.

(** [ApiClient.getHeaders]: the entries of the headers object. *)
Definition getHeaders (st : Storage) : list (string * string) :=
  ("Content-Type", "application/json") ::
  match token_given st with
  | Some token => [("Authorization", "Bearer " ++ token)]
  | None => []
  end.

(** [ApiClient.getMultipartHeaders] *)
Definition getMultipartHeaders (st : Storage) : list (string * string) :=
  match token_given st with
  | Some token => [("Authorization", "Bearer " ++ token)]
  | None => []
  end.

(** [API_BASE_URL] *)
Definition API_BASE_URL : string := "http://localhost:8000/api".

(** What is handed to [fetch]; a JSON body is kept as the value given to
    [JSON.stringify]. *)
Record Request := {
  req_method : string;
  req_url : string;
  req_headers : list (string * string);
  req_body : option json
}.

(** The requests of [ApiClient.get], [post], [put] and [delete]. *)
Definition get_request (endpoint : string) (st : Storage) : Request :=
  {| req_method := "GET"; req_url := API_BASE_URL ++ endpoint;
     req_headers := getHeaders st; req_body := None |}.

Definition post_request (endpoint : string) (data : json) (st : Storage) : Request :=
  {| req_method := "POST"; req_url := API_BASE_URL ++ endpoint;
     req_headers := getHeaders st; req_body := Some data |}.

Definition put_request (endpoint : string) (data : json) (st : Storage) : Request :=
  {| req_method := "PUT"; req_url := API_BASE_URL ++ endpoint;
     req_headers := getHeaders st; req_body := Some data |}.

Definition delete_request (endpoint : string) (st : Storage) : Request :=
  {| req_method := "DELETE"; req_url := API_BASE_URL ++ endpoint;
     req_headers := getHeaders st; req_body := None |}.

(** How a [fetch] ends: the promise rejects with a TypeError when the
    network fails, else it resolves to a response. *)
Inductive FetchResult :=
| network_failure
| responded (response : Response).

(** [await fetch(...)] followed by [this.handleResponse(response)], the
    tail of every method of [ApiClient]. *)
Definition api_call (f : FetchResult) (st : Storage) : Outcome json * Storage :=
  match f with
  | network_failure => (Thrown TypeError, st)
  | responded response => handleResponse response st
  end.


(** [authApi.logout] *)
Definition logout (st : Storage) : Storage := TokenManager.removeToken st.

(** [error.detail || fallback] of [login] and [register], on the body or,
    when it is not JSON, on [{ detail: fallback }]. *)
Definition detail_or (fallback : string) (response : Response) : Outcome json :=
  match get_prop (default (JObj [("detail", JStr fallback)]) (resp_json response)) "detail" with
  | Returned d => Returned (default (JStr fallback) (js_or d (Some (JStr fallback))))
  | Thrown e => Thrown e
  end.

Section WithToString.

(** The conversion to a string that [localStorage.setItem] applies to the
    value it is given, which may be any JSON value or [undefined]. *)
Variable ToString : jsval → string.


(** [authApi.refreshToken]: a post through the client, then [setToken]. *)
Definition refreshToken (f : FetchResult) (st : Storage) : Outcome json * Storage :=
  match api_call f st with
  | (Returned authResponse, st') =>
      match get_prop authResponse "access_token" with
      | Returned token =>
          (Returned authResponse, TokenManager.setToken (ToString token) st')
      | Thrown e => (Thrown e, st')
      end
  | (Thrown e, st') => (Thrown e, st')
  end.

End WithToString.

(** [authApi.register]: the storage is not involved. *)
Definition register (f : FetchResult) : Outcome json :=
  match f with
  | network_failure => Thrown TypeError
  | responded response =>
      if negb (ok response) then
        match detail_or "Registration failed" response with
        | Returned v => Thrown (Error v)
        | Thrown e => Thrown e
        end
      else
        match resp_json response with
        | None => Thrown SyntaxError
        | Some user => Returned user
        end
  end.

End Auth.

(** ** App.tsx and the main page: the check at start-up *)

Module Startup.

Import Api Auth.

(** The three [useState] cells of [App]. *)
Record AppState := {
  isAuthenticated : bool;
  currentUser : option (jsval * jsval);
  loading : bool
}.




(** [handleLogout] of [App] *)
Definition handleLogout (a : AppState) (st : Storage) : AppState * Storage :=
  ({| isAuthenticated := false; currentUser := None; loading := loading a |}, logout st).




End Startup.

(** ** The upload page: the selection and the upload request *)

Module UploadPage.

Import Api Upload.

(** What changes [selectedFiles]: the file input ([handleFileSelect]), the
    remove button of the file at a position
    ([files.filter((_, i) => i !== index)]) and the reset after a
    successful upload ([setSelectedFiles([])]). *)
Inductive SelectionEvent :=
| Choose (files : option (list File))
| RemoveAt (index : nat)
| Uploaded.

Definition select_step (selectedFiles : list File) (e : SelectionEvent) : list File :=
  match e with
  | Choose files => (handleFileSelect files selectedFiles).1
  | RemoveAt index => delete index selectedFiles
  | Uploaded => []
  end.

Definition select_run (es : list SelectionEvent) : list File :=
  foldl select_step [] es.

(** How [uploadAndProcessFiles] starts: it refuses with a toast, or it
    calls [scriptsApi.uploadBatch], which posts a form. *)
Inductive UploadStart :=
| refused (t : Toast)
| posted (form : list (string * FormValue File)).

(** The guards of [uploadAndProcessFiles] and the call it makes;
    [!selectedSession] holds of the empty string. *)
Definition upload_start (selectedSession : string) (selectedFiles : list File)
    : UploadStart :=
  if String.eqb selectedSession "" then
    refused {| title := "Error"; description := "Please select a session first";
               variant := "destructive" |}
  else if Nat.eqb (length selectedFiles) 0 then
    refused {| title := "Error"; description := "Please select files to upload";
               variant := "destructive" |}
  else posted (uploadBatch_form selectedSession selectedFiles).

(** The files of a posted form. *)
Definition form_files (form : list (string * FormValue File)) : list File :=
  omap (λ kv, match kv.2 with form_file f => Some f | form_text _ => None end) form.

End UploadPage.

(** ** Observations on runs

    Functions that read a property off a sequence of updates or off a
    component; they are used to state the properties, not by the code. *)

Module Observe.

Import Dashboard View.

(** The six indicators when the index found is [idx]. *)
Definition indicator_row (idx : Z) : list Indicator :=
  (replicate (Z.to_nat idx) ind_completed ++ [ind_current] ++
   replicate (5 - Z.to_nat idx) ind_pending)%list.

(** The order of the cards: a script that started later comes first. *)
Definition later_first (a b : ScriptProcessingState) : Prop :=
  (started_at b ≤ started_at a)%Z.

(** The timestamp of the last completed update for script [sid] in a
    sequence of updates, if there is one. *)
Fixpoint last_completion (sid : string) (us : list ProcessingUpdate) : option Z :=
  match us with
  | [] => None
  | u :: rest =>
      match last_completion sid rest with
      | Some t => Some t
      | None =>
          if bool_decide (u_script_id u = sid ∧ u_status u = upd_completed)
          then Some (u_timestamp u) else None
      end
  end.

(** The number of closed sockets of a component. *)
Definition closed_count (l : list Socket) : nat :=
  length (filter (λ k, readyState k = CLOSED) l).

(** The shape of what a socket has sent. Once open it has sent the
    subscription of [onopen] (if its props name a session) followed by
    script subscriptions only; while connecting it has sent nothing; a
    socket that closed without opening has sent nothing either. *)
Definition session_then_scripts (k : Socket) : Prop :=
  ∃ ids : list string,
    sent k = (subscriptions_on_open (ws_props k) ++ map subscribe_script ids)%list.

Definition sent_shape (k : Socket) : Prop :=
  (readyState k = CONNECTING → sent k = []) ∧
  (readyState k = OPEN → session_then_scripts k) ∧
  (sent k = [] ∨ session_then_scripts k).

(** What holds of the sockets and timers of a dashboard at any time: one
    timer per closed socket, every timer with the fixed delay, every socket
    with a well-shaped log of sent messages. *)
Definition inv_lists (ss : list Socket) (ts : list Timer) : Prop :=
  length ts = closed_count ss ∧
  Forall (λ t, delay t = 3000%Z) ts ∧
  Forall sent_shape ss.

(** What the staleness of the cleanup depends on. *)
Definition cells (d : Component) : option nat * option nat * nat :=
  (websocket (state d), cleanup_websocket d, length (sockets (world d))).

(** The [websocket] cell names an existing socket, and the socket the
    effect cleanup closed over is an older one. *)
Definition cleanup_is_stale (d : Component) : Prop :=
  (∀ w : nat, websocket (state d) = Some w → (w < length (sockets (world d)))%nat) ∧
  (∀ c : nat, cleanup_websocket d = Some c →
     (c < length (sockets (world d)))%nat ∧
     ∀ w : nat, websocket (state d) = Some w → (c < w)%nat).

Definition connection_invariant (d : Component) : Prop :=
  inv_lists (sockets (world d)) (timers (world d)).

End Observe.

(** ** Scenarios

    The concrete inputs the properties below are exercised on. *)

Module Scenarios.

Import Dashboard Api Backend.

(** Two events of one script: the older one arrives last. *)
Definition early_event : ProcessingUpdate :=
  {| u_script_id := "script-1"; u_status := upd_processing;
     u_stage := "ocr_completed"; u_progress := 40;
     u_stage_description := "Extracting text"; u_estimated_remaining_time := 30;
     u_details := None; u_result := None; u_error := None; u_timestamp := 100 |}.

Definition late_event : ProcessingUpdate :=
  {| u_script_id := "script-1"; u_status := upd_completed;
     u_stage := "completed"; u_progress := 100;
     u_stage_description := "Done"; u_estimated_remaining_time := 0;
     u_details := None; u_result := None; u_error := None; u_timestamp := 200 |}.

(** A script whose processing has ended. *)
Definition finished_script : ScriptProcessingState :=
  {| script_id := "script-1"; script_name := JStr "paper.png";
     student_name := JStr "Ada"; current_stage := "completed"; progress := 100;
     status := completed; stage_description := "Done";
     estimated_remaining_time := 0; details := ∅; result := None; error := None;
     started_at := 100; completed_at := Some 200 |}.

(** A script half way through. *)
Definition running_script : ScriptProcessingState :=
  {| script_id := "script-1"; script_name := JStr "paper.png";
     student_name := JStr "Ada"; current_stage := "evaluation_completed";
     progress := 70; status := processing; stage_description := "Evaluating";
     estimated_remaining_time := 15; details := ∅; result := None; error := None;
     started_at := 100; completed_at := None |}.

(** A dashboard watching one session. *)
Definition session_props : Props :=
  {| sessionId := Some "session-1"; onProcessingComplete := true |}.

(** The connection opens, a script subscription is sent, the connection is
    lost, the timer fires and the new connection opens. *)
Definition reconnect_trace : list Event :=
  [WsOpen 0; SubscribeToScript "script-1"; WsClose 0; TimerFire 0; WsOpen 1]%nat.

(** The dashboard is unmounted while its connection is open; the connection
    closes afterwards. *)
Definition close_after_unmount : list Event :=
  [WsOpen 0; Unmount; WsClose 0; TimerFire 0]%nat.

(** A gateway answers 502 with an HTML page. *)
Definition bad_gateway : Response := {| resp_status := 502; resp_json := None |}.

(** The first scenario of the specification, with passing marks 40 and a
    score of 72. *)
Definition low_ocr_result : ScriptResult :=
  {| sr_script_id := "script-1"; ocr_confidence := 0.55%Q;
     evaluation_confidence := 0.9%Q; verification_confidence := 0.9%Q;
     final_score := 72%Q; processing_error := None |}.

(** An entry waiting for review, with automated score 35. *)
Definition pending_entry : ReviewEntry :=
  {| re_script_id := "script-1"; reasons := [below_passing];
     review_status := review_pending; original_score := 35%Q;
     manual_score := None; reviewer_notes := "" |}.

(** A batch of three files whose second one fails in the pipeline. *)
Definition failing_second (f : nat) : Terminal Z :=
  if Nat.eqb f 1 then terminal_failed "OCR failed"
  else terminal_completed 80%Z.

End Scenarios.

(** ** More scenarios *)

Module MoreScenarios.

Import Dashboard Scenarios.

(** An update for a second script. *)
Definition other_script_event : ProcessingUpdate :=
  {| u_script_id := "script-2"; u_status := upd_failed;
     u_stage := "failed"; u_progress := 20;
     u_stage_description := "OCR failed"; u_estimated_remaining_time := 0;
     u_details := Some {[ "script_name" := JStr "scan-2.png" ]};
     u_result := None; u_error := Some "OCR failed"; u_timestamp := 150 |}.

(** A completion that carries a result. *)
Definition completion_event : ProcessingUpdate :=
  {| u_script_id := "script-1"; u_status := upd_completed;
     u_stage := "completed"; u_progress := 100;
     u_stage_description := "Done"; u_estimated_remaining_time := 0;
     u_details := Some {[ "student_name" := JStr "" ]};
     u_result := Some {[ "total_score" := JNum 72 ]};
     u_error := None; u_timestamp := 300 |}.

(** A conversion to text that is right on strings and on [undefined], to
    run the auth functions on examples. *)
Definition text_of (v : jsval) : string :=
  match v with
  | Some (JStr s) => s
  | _ => "undefined"
  end.


(** An answer with status 401. *)
Definition unauthorized : Api.Response :=
  {| Api.resp_status := 401; Api.resp_json := Some (JObj [("detail", JStr "expired")]) |}.

End MoreScenarios.

(** * Properties *)

Import Scenarios.
Import MoreScenarios.

(** ** The update handler of the dashboard *)

Section UpdateHandler.

Import Dashboard.

Implicit Types (m : gmap string ScriptProcessingState) (u : ProcessingUpdate).

Lemma updateScriptProcessing_lookup u m :
  updateScriptProcessing u m !! u_script_id u
  = Some (updatedState (m !! u_script_id u) u).
Proof. unfold updateScriptProcessing. by rewrite lookup_insert_eq. Qed.

Lemma updateScriptProcessing_other u m k :
  k ≠ u_script_id u → updateScriptProcessing u m !! k = m !! k.
Proof. intros Hk. unfold updateScriptProcessing. by rewrite lookup_insert_ne. Qed.

Lemma canonical_updatedState o u :
  canonical (updatedState o u) = update_canonical u.
Proof. reflexivity. Qed.

Lemma canonical_after_update u m :
  canonical <$> updateScriptProcessing u m !! u_script_id u
  = Some (update_canonical u).
Proof. by rewrite updateScriptProcessing_lookup. Qed.

(** C1, as stated, fails: when the event with the larger timestamp arrives
    first, the older event is not discarded; it overwrites the stored state,
    which is then not the one the newer event alone produces. *)
Lemma C1_stale_event_overwrites :
  u_script_id early_event = u_script_id late_event ∧
  u_timestamp early_event < u_timestamp late_event ∧
  canonical <$> apply_updates [late_event] ∅ !! "script-1"
    = Some ("completed", completed, 100) ∧
  canonical <$> apply_updates [late_event; early_event] ∅ !! "script-1"
    = Some ("ocr_completed", processing, 40) ∧
  apply_updates [late_event; early_event] ∅ ≠ apply_updates [late_event] ∅.
Proof.
  split; [reflexivity|]. split; [reflexivity|].
  assert (H1 : canonical <$> apply_updates [late_event] ∅ !! "script-1"
               = Some ("completed", completed, 100)).
  { apply (canonical_after_update late_event). }
  assert (H2 : canonical <$> apply_updates [late_event; early_event] ∅ !! "script-1"
               = Some ("ocr_completed", processing, 40)).
  { apply (canonical_after_update early_event). }
  split; [exact H1|]. split; [exact H2|].
  intros Heq. rewrite Heq, H1 in H2. discriminate.
Qed.

(** C1, amended: the handler compares no timestamps and applies every update
    in arrival order. For two events of one script, whatever their
    timestamps, the stored stage, status and progress are those of the event
    that arrived last, and the entries of the other scripts are untouched. *)
Theorem C1_last_arrival_wins m (e1 e2 : ProcessingUpdate) :
  u_script_id e1 = u_script_id e2 →
  canonical <$> apply_updates [e1; e2] m !! u_script_id e2 = Some (update_canonical e2) ∧
  canonical <$> apply_updates [e2; e1] m !! u_script_id e2 = Some (update_canonical e1) ∧
  ∀ k, k ≠ u_script_id e2 →
       apply_updates [e1; e2] m !! k = m !! k ∧ apply_updates [e2; e1] m !! k = m !! k.
Proof.
  intros Hid. cbn [apply_updates foldl]. split; [|split].
  - apply canonical_after_update.
  - rewrite <- Hid. apply canonical_after_update.
  - intros k Hk.
    rewrite !updateScriptProcessing_other by congruence. done.
Qed.

Lemma C1_last_arrival_wins_witness :
  canonical <$> apply_updates [early_event; late_event] ∅ !! "script-1"
    = Some ("completed", completed, 100) ∧
  canonical <$> apply_updates [late_event; early_event] ∅ !! "script-1"
    = Some ("ocr_completed", processing, 40).
Proof.
  destruct (C1_last_arrival_wins ∅ early_event late_event eq_refl) as (H1 & H2 & _).
  split; [exact H1 | exact H2].
Defined.

(** C2, as stated, fails: an update that arrives for a completed script
    replaces its stage, status and progress. *)
Lemma C2_terminal_state_overwritten :
  is_terminal (status finished_script) = true ∧
  canonical <$> ({[ "script-1" := finished_script ]} : gmap string _) !! "script-1"
    = Some ("completed", completed, 100) ∧
  canonical <$> updateScriptProcessing early_event {[ "script-1" := finished_script ]}
                  !! "script-1"
    = Some ("ocr_completed", processing, 40).
Proof.
  split; [reflexivity|]. split.
  - by rewrite lookup_singleton_eq.
  - apply (canonical_after_update early_event).
Qed.

(** C2, amended: the handler has no guard on terminal states. For a script
    whose stored status is completed or failed, an applied update sets the
    stage, status and progress to its own; they stay as they were exactly
    when the update carries the same three values. *)
Theorem C2_terminal_not_guarded m u (st : ScriptProcessingState) :
  m !! u_script_id u = Some st →
  is_terminal (status st) = true →
  canonical <$> updateScriptProcessing u m !! u_script_id u = Some (update_canonical u) ∧
  (canonical <$> updateScriptProcessing u m !! u_script_id u = Some (canonical st)
   ↔ update_canonical u = canonical st).
Proof.
  intros _ _. rewrite canonical_after_update. split; [done|].
  split; [intros H; congruence | intros H; congruence].
Qed.

Lemma C2_terminal_not_guarded_witness :
  canonical <$> updateScriptProcessing early_event {[ "script-1" := finished_script ]}
                  !! "script-1"
    = Some ("ocr_completed", processing, 40).
Proof.
  refine (proj1 (C2_terminal_not_guarded {[ "script-1" := finished_script ]}
                   early_event finished_script _ _)).
  - reflexivity.
  - reflexivity.
Defined.

(** C3, as stated, fails: a processing script at 70 percent that receives a
    processing update of 40 percent is stored at 40 percent. *)
Lemma C3_progress_decreases :
  status running_script = processing ∧
  u_status early_event = upd_processing ∧
  progress running_script = 70 ∧
  progress_history "script-1" [early_event] {[ "script-1" := running_script ]}
    = [Some 40].
Proof.
  do 3 (split; [reflexivity|]).
  cbn [progress_history].
  by rewrite (updateScriptProcessing_lookup early_event).
Qed.

(** C3, amended: the stored progress of a script after each applied update
    is the progress that update carries, whatever the stored status; over a
    sequence of updates it is therefore non-decreasing exactly when the
    progress values sent are. *)
Theorem C3_progress_follows_updates (sid : string) (us : list ProcessingUpdate) m :
  Forall (λ u, u_script_id u = sid) us →
  progress_history sid us m = map (λ u, Some (u_progress u)) us.
Proof.
  intros Hall. revert m.
  induction Hall as [|u us Hu _ IH]; intros m; [reflexivity|].
  cbn [progress_history map]. rewrite IH. f_equal.
  subst sid. by rewrite updateScriptProcessing_lookup.
Qed.

Lemma C3_progress_follows_updates_witness :
  progress_history "script-1" [late_event; early_event] {[ "script-1" := running_script ]}
  = [Some 100; Some 40].
Proof.
  apply (C3_progress_follows_updates "script-1" [late_event; early_event]).
  repeat constructor.
Defined.

End UpdateHandler.

(** ** The connection life cycle of the dashboard *)

Section Connection.

Import Dashboard.

Implicit Types (d : Component) (k : Socket) (p : Props).

Lemma world_set_state f d : world (set_state f d) = world d.
Proof. unfold set_state. by destruct (mounted d). Qed.

Lemma mounted_set_state f d : mounted (set_state f d) = mounted d.
Proof. unfold set_state. by destruct (mounted d) eqn:E. Qed.

Lemma world_setIsConnected b d : world (setIsConnected b d) = world d.
Proof. apply world_set_state. Qed.

Lemma world_setConnectionError e d : world (setConnectionError e d) = world d.
Proof. apply world_set_state. Qed.

Lemma world_setWebsocket w d : world (setWebsocket w d) = world d.
Proof. apply world_set_state. Qed.

Lemma scripts_setIsConnected b d :
  processingScripts (state (setIsConnected b d)) = processingScripts (state d).
Proof. unfold setIsConnected, set_state. by destruct (mounted d). Qed.

Lemma scripts_setConnectionError e d :
  processingScripts (state (setConnectionError e d)) = processingScripts (state d).
Proof. unfold setConnectionError, set_state. by destruct (mounted d). Qed.

Lemma scripts_setWebsocket w d :
  processingScripts (state (setWebsocket w d)) = processingScripts (state d).
Proof. unfold setWebsocket, set_state. by destruct (mounted d). Qed.

Lemma alter_is_insert {A} (f : A → A) (c : nat) (l : list A) (x : A) :
  l !! c = Some x → alter f c l = <[c := f x]> l.
Proof.
  intros Hx. apply list_eq. intros i.
  destruct (decide (i = c)) as [->|Hne].
  - rewrite list_lookup_alter_eq, Hx.
    rewrite list_lookup_insert_eq; [done|]. by eapply lookup_lt_Some.
  - rewrite list_lookup_alter_ne, list_lookup_insert_ne by done. done.
Qed.

Lemma world_alter_socket (f : Socket → Socket) c d :
  world (alter_socket f c d)
  = {| sockets := alter f c (sockets (world d));
       timers := timers (world d);
       completions := completions (world d) |}.
Proof. reflexivity. Qed.

Lemma scripts_alter_socket (f : Socket → Socket) c d :
  processingScripts (state (alter_socket f c d)) = processingScripts (state d).
Proof. reflexivity. Qed.

Lemma step_WsOpen d (c : nat) k :
  sockets (world d) !! c = Some k →
  readyState k = CONNECTING →
  world (step (WsOpen c) d)
  = {| sockets := <[c := {| readyState := OPEN; ws_props := ws_props k;
                            sent := sent k ++ subscriptions_on_open (ws_props k) |}]>
                    (sockets (world d));
       timers := timers (world d);
       completions := completions (world d) |}
  ∧ processingScripts (state (step (WsOpen c) d)) = processingScripts (state d).
Proof.
  intros Hk Hr. cbn [step]. rewrite Hk. rewrite decide_True by done.
  unfold onopen, subscriptions_on_open.
  set (d1 := alter_socket (set_readyState OPEN) c d).
  set (d2 := setConnectionError None (setIsConnected true d1)).
  assert (Hw1 : world d1
                = {| sockets := <[c := set_readyState OPEN k]> (sockets (world d));
                     timers := timers (world d);
                     completions := completions (world d) |}).
  { unfold d1. rewrite world_alter_socket. by rewrite (alter_is_insert _ _ _ k). }
  assert (Hw : world d2 = world d1).
  { unfold d2. by rewrite world_setConnectionError, world_setIsConnected. }
  assert (Hp : processingScripts (state d2) = processingScripts (state d)).
  { unfold d2. by rewrite scripts_setConnectionError, scripts_setIsConnected. }
  assert (Hlt : (c < length (sockets (world d)))%nat) by by eapply lookup_lt_Some.
  destruct (session_given (ws_props k)) as [sid|].
  - unfold ws_send, socket_state. rewrite Hw, Hw1. cbn [sockets].
    rewrite list_lookup_insert_eq by done.
    cbn [fmap option_fmap option_map set_readyState readyState].
    rewrite decide_True by done. split; [|by rewrite scripts_alter_socket].
    rewrite world_alter_socket, Hw, Hw1. cbn [sockets timers completions].
    f_equal.
    rewrite (alter_is_insert _ _ _ (set_readyState OPEN k))
      by by rewrite list_lookup_insert_eq.
    by rewrite list_insert_insert_eq.
  - rewrite app_nil_r. split; [|exact Hp]. by rewrite Hw, Hw1.
Qed.

Lemma step_WsClose d (c : nat) k :
  sockets (world d) !! c = Some k →
  readyState k ≠ CLOSED →
  world (step (WsClose c) d)
  = {| sockets := <[c := set_readyState CLOSED k]> (sockets (world d));
       timers := timers (world d) ++
                 [{| delay := 3000; t_props := ws_props k; t_pending := true |}];
       completions := completions (world d) |}.
Proof.
  intros Hk Hr. cbn [step]. rewrite Hk. rewrite decide_False by done.
  unfold onclose, setTimeout. cbn [world with_world].
  rewrite world_setIsConnected, world_alter_socket. cbn [sockets timers completions].
  by rewrite (alter_is_insert _ _ _ k).
Qed.

Lemma step_TimerFire d (t : nat) (k : Timer) :
  timers (world d) !! t = Some k →
  t_pending k = true →
  world (step (TimerFire t) d)
  = {| sockets := sockets (world d) ++
                  [{| readyState := CONNECTING; ws_props := t_props k; sent := [] |}];
       timers := <[t := {| delay := delay k; t_props := t_props k; t_pending := false |}]>
                   (timers (world d));
       completions := completions (world d) |}.
Proof.
  intros Hk Hp. cbn [step]. rewrite Hk, Hp.
  unfold connectWebSocket. rewrite world_setWebsocket.
  unfold fire_timer. cbn [world with_world sockets timers completions].
  by rewrite (alter_is_insert _ _ _ k).
Qed.

(** One round of [reconnect_rounds] on a component whose newest socket [i]
    is not closed and whose timers have all been set by earlier rounds. *)
Lemma reconnect_rounds_sockets (n i : nat) d k :
  length (sockets (world d)) = S i →
  length (timers (world d)) = i →
  sockets (world d) !! i = Some k →
  readyState k ≠ CLOSED →
  length (sockets (world (run (reconnect_rounds i n) d))) = S (i + n) ∧
  length (timers (world (run (reconnect_rounds i n) d))) = (i + n)%nat.
Proof.
  revert i d k. induction n as [|n IH]; intros i d k Hs Ht Hk Hr.
  - cbn. rewrite Nat.add_0_r. done.
  - cbn [reconnect_rounds run foldl].
    pose proof (step_WsClose d i k Hk Hr) as Hc.
    set (d1 := step (WsClose i) d) in *.
    assert (Hti : timers (world d1) !! i
                  = Some {| delay := 3000; t_props := ws_props k; t_pending := true |}).
    { rewrite Hc. cbn [timers]. rewrite lookup_app_r by lia.
      by rewrite Ht, Nat.sub_diag. }
    pose proof (step_TimerFire d1 i _ Hti eq_refl) as Hf.
    set (d2 := step (TimerFire i) d1) in *.
    replace (i + S n)%nat with (S i + n)%nat by lia.
    apply (IH (S i) d2 {| readyState := CONNECTING; ws_props := ws_props k; sent := [] |}).
    + rewrite Hf, Hc. cbn [sockets]. rewrite length_app, length_insert, Hs. cbn. lia.
    + rewrite Hf, Hc. cbn [timers]. rewrite length_insert, length_app, Ht. cbn. lia.
    + rewrite Hf, Hc. cbn [sockets t_props]. rewrite lookup_app_r.
      * rewrite length_insert, Hs, Nat.sub_diag. done.
      * rewrite length_insert. lia.
    + done.
Qed.

(** C4, as stated, fails: after the reconnect the new connection carries the
    session subscription only. The script subscription held on the lost
    connection is not re-issued, and the reconnect leaves the stored script
    states as they were: nothing is pulled. *)
Lemma C4_script_subscription_not_reissued :
  let before := run [WsOpen 0; SubscribeToScript "script-1"; WsClose 0; TimerFire 0]%nat
                    (mount session_props) in
  let after := run reconnect_trace (mount session_props) in
  sent_on 0 after = [subscribe_session "session-1"; subscribe_script "script-1"] ∧
  socket_state 0 after = Some CLOSED ∧
  socket_state 1 after = Some OPEN ∧
  sent_on 1 after = [subscribe_session "session-1"] ∧
  (subscribe_script "script-1" ∉ sent_on 1 after) ∧
  processingScripts (state after) = processingScripts (state before).
Proof.
  cbv zeta. split; [reflexivity|]. split; [reflexivity|]. split; [reflexivity|].
  split; [reflexivity|]. split; [|reflexivity].
  intros Hin. apply list_elem_of_In in Hin. vm_compute in Hin.
  destruct Hin as [Hin|[]]. discriminate.
Qed.

(** C4, amended: when a connection opens, the first one or a reconnect, the
    observer sends on it one [subscribe_session] for the session id of its
    props if that id is set and not empty, and does nothing else: no
    script-scope subscription is re-issued, no snapshot is pulled, and the
    stored script states, the timers and the other connections are left as
    they were. *)
Theorem C4_open_sends_session_subscription_only d (c : nat) k :
  sockets (world d) !! c = Some k →
  readyState k = CONNECTING →
  sockets (world (step (WsOpen c) d))
  = <[c := {| readyState := OPEN; ws_props := ws_props k;
              sent := sent k ++ subscriptions_on_open (ws_props k) |}]>
      (sockets (world d)) ∧
  timers (world (step (WsOpen c) d)) = timers (world d) ∧
  completions (world (step (WsOpen c) d)) = completions (world d) ∧
  processingScripts (state (step (WsOpen c) d)) = processingScripts (state d).
Proof.
  intros Hk Hr. destruct (step_WsOpen d c k Hk Hr) as [Hw Hp].
  rewrite Hw. done.
Qed.

Lemma C4_open_sends_session_subscription_only_witness :
  let before := run [WsOpen 0; SubscribeToScript "script-1"; WsClose 0; TimerFire 0]%nat
                    (mount session_props) in
  sockets (world (step (WsOpen 1) before))
  = <[1%nat := {| readyState := OPEN; ws_props := session_props;
                  sent := [] ++ subscriptions_on_open session_props |}]>
      (sockets (world before)).
Proof.
  cbv zeta.
  refine (proj1 (C4_open_sends_session_subscription_only _ 1
                   {| readyState := CONNECTING; ws_props := session_props; sent := [] |}
                   _ _)).
  - reflexivity.
  - reflexivity.
Defined.

(** C8, as stated, fails: once the observing context is destroyed, the close
    of its connection still schedules a reconnect, and the timer creates a
    new connection. *)
Lemma C8_reconnects_after_unmount :
  let destroyed := run [WsOpen 0; Unmount]%nat (mount session_props) in
  let closed := run [WsOpen 0; Unmount; WsClose 0]%nat (mount session_props) in
  let final := run close_after_unmount (mount session_props) in
  mounted destroyed = false ∧
  timers (world destroyed) = [] ∧
  length (sockets (world destroyed)) = 1%nat ∧
  timers (world closed)
    = [{| delay := 3000; t_props := session_props; t_pending := true |}] ∧
  mounted final = false ∧
  length (sockets (world final)) = 2%nat ∧
  socket_state 1 final = Some CONNECTING.
Proof. cbv zeta. repeat split; reflexivity. Qed.

(** C8, amended: whenever a connection of the observer closes, whether the
    observing context is alive or not, one reconnect is scheduled with the
    fixed delay of 3000 ms; when the timer fires, one new connection is
    created; the attempts are unbounded: [n] losses in a row are followed
    by [n] reconnects, before and after the unmount alike. *)
Theorem C8_reconnect_after_every_close :
  (∀ d (c : nat) k,
     sockets (world d) !! c = Some k →
     readyState k ≠ CLOSED →
     timers (world (step (WsClose c) d))
     = (timers (world d) ++
        [{| delay := 3000; t_props := ws_props k; t_pending := true |}])%list) ∧
  (∀ d (t : nat) (k : Timer),
     timers (world d) !! t = Some k →
     t_pending k = true →
     sockets (world (step (TimerFire t) d))
     = (sockets (world d) ++
        [{| readyState := CONNECTING; ws_props := t_props k; sent := [] |}])%list) ∧
  (∀ p (n : nat),
     length (sockets (world (run (reconnect_rounds 0 n) (mount p)))) = S n ∧
     length (sockets (world (run (reconnect_rounds 0 n) (step Unmount (mount p))))) = S n).
Proof.
  split; [|split].
  - intros d c k Hk Hr. by rewrite (step_WsClose d c k Hk Hr).
  - intros d t k Hk Hp. by rewrite (step_TimerFire d t k Hk Hp).
  - intros p n. split.
    + refine (proj1 (reconnect_rounds_sockets n 0 (mount p)
                {| readyState := CONNECTING; ws_props := p; sent := [] |} _ _ _ _));
        done.
    + refine (proj1 (reconnect_rounds_sockets n 0 (step Unmount (mount p))
                {| readyState := CONNECTING; ws_props := p; sent := [] |} _ _ _ _));
        done.
Qed.

Lemma C8_reconnect_after_every_close_witness :
  let destroyed := run [WsOpen 0; Unmount]%nat (mount session_props) in
  timers (world (step (WsClose 0) destroyed))
  = (timers (world destroyed) ++
     [{| delay := 3000; t_props := session_props; t_pending := true |}])%list.
Proof.
  cbv zeta.
  refine (proj1 C8_reconnect_after_every_close _ 0%nat
            {| readyState := OPEN; ws_props := session_props;
               sent := [subscribe_session "session-1"] |} _ _).
  - reflexivity.
  - discriminate.
Defined.

(** The session of a mounted dashboard changes while its first connection
    is open: the cleanup closed over the [websocket] of the mount render,
    which was [null], so the old connection stays open beside the new one. *)
Lemma session_change_keeps_old_connection :
  let d := run [WsOpen 0;
                PropsChange {| sessionId := Some "session-2"; onProcessingComplete := true |};
                WsOpen 1]%nat (mount session_props) in
  socket_state 0 d = Some OPEN ∧ socket_state 1 d = Some OPEN ∧ live_sockets d = 2%nat.
Proof. cbv zeta. repeat split; reflexivity. Qed.

End Connection.

(** ** The file selection of the upload page *)

Section FileSelection.

Import Upload.

Lemma keeps_well_formed (f : File) : keeps f = true ↔ well_formed f.
Proof.
  unfold keeps, validate, well_formed.
  destruct (String.prefix "image/" (file_type f)); cbn [negb].
  - destruct (Z.ltb_spec MAX_SIZE (file_size f)).
    + split; [done | intros [_ ?]; lia].
    + split; [intros _; split; [done | lia] | done].
  - split; [done | by intros [? _]].
Qed.

Lemma elem_of_validFiles (f : File) (fileArray : list File) :
  f ∈ validFiles fileArray ↔ f ∈ fileArray ∧ well_formed f.
Proof.
  induction fileArray as [|g rest IH]; cbn [validFiles].
  - split; [by intros ?%elem_of_nil | by intros [?%elem_of_nil _]].
  - destruct (keeps g) eqn:Hg.
    + rewrite !elem_of_cons, IH. apply keeps_well_formed in Hg.
      split.
      * intros [->|[? ?]]; [by split; [left|] | by split; [right|]].
      * intros [[->|?] ?]; [by left | by right].
    + rewrite elem_of_cons, IH. split.
      * intros [? ?]. by split; [right|].
      * intros [[->|?] Hw]; [|done].
        apply keeps_well_formed in Hw. congruence.
Qed.

(** C9: the selection keeps exactly the files of the chosen list whose type
    starts with [image/] and whose size is at most 10 MB, in their order: a
    malformed file is left out and every other file of the same selection
    is still accepted. *)
Theorem C9_selection_keeps_well_formed_files (fileArray selected : list File) (f : File) :
  (f ∈ (handleFileSelect (Some fileArray) selected).1 ↔ f ∈ fileArray ∧ well_formed f) ∧
  (handleFileSelect (Some fileArray) selected).1 `sublist_of` fileArray ∧
  Forall well_formed (handleFileSelect (Some fileArray) selected).1.
Proof.
  cbn [handleFileSelect fst]. split; [apply elem_of_validFiles|]. split.
  - clear f. induction fileArray as [|g rest IH]; cbn [validFiles]; [constructor|].
    destruct (keeps g); by constructor.
  - apply Forall_forall. intros g Hg. by apply elem_of_validFiles in Hg as [_ ?].
Qed.

End FileSelection.

(** The batch the server receives is the selection, file by file. *)
Lemma uploadBatch_form_files {F : Type} (sessionId : string) (files : list F) :
  omap (λ kv, match kv.2 with Api.form_file f => Some f | Api.form_text _ => None end)
       (Api.uploadBatch_form sessionId files)
  = files.
Proof.
  unfold Api.uploadBatch_form. cbn [omap list_omap snd].
  induction files as [|f rest IH]; [done|].
  cbn [map]. change (omap ?g (?x :: ?l)) with (f :: omap g l). by f_equal.
Qed.

(** ** The response handler of the API client *)

Section ResponseHandler.

Import Api.

Lemma error_message_object l :
  error_message (JObj l) = Returned (detail_or_message l).
Proof.
  unfold error_message, detail_or_message, get_prop, js_or, truthy_val.
  destruct (assoc "detail" l) as [v|]; [destruct (truthy v) eqn:Hv|];
    destruct (assoc "message" l) as [w|]; try destruct (truthy w) eqn:Hw;
    cbn; rewrite ?Hv, ?Hw; cbn; rewrite ?Hv, ?Hw; reflexivity.
Qed.

(** C10, as stated, fails: for a non-ok response whose body is not JSON the
    error thrown carries neither a detail or message of the response nor
    ['API request failed'], but the substitute ['Network error']. *)
Lemma C10_unparsable_error_body :
  ok bad_gateway = false ∧
  resp_status bad_gateway ≠ 401 ∧
  resp_json bad_gateway = None ∧
  ∀ st : Storage,
    handleResponse bad_gateway st = (Thrown (Error (JStr "Network error")), st).
Proof. repeat split; try done. Qed.

(** C10, amended: for status 401 the stored token is removed and the error
    ['Authentication failed. Please login again.'] is thrown. For every
    other non-ok status the storage is left as it is and an error is thrown:
    it carries the truthy detail of the JSON object in the body, else its
    truthy message, else ['API request failed']; a body that is not JSON
    gives ['Network error'] and a body that is [null] a TypeError. For an
    ok status the storage is left as it is, and the parsed body is returned
    when the body is JSON. *)
Theorem C10_handleResponse_cases (r : Response) (st : Storage) :
  (resp_status r = 401 →
     handleResponse r st
     = (Thrown (Error (JStr "Authentication failed. Please login again.")),
        TokenManager.removeToken st) ∧
     TokenManager.getToken (handleResponse r st).2 = None) ∧
  (ok r = false → resp_status r ≠ 401 →
     (handleResponse r st).2 = st ∧
     match resp_json r with
     | Some (JObj l) => (handleResponse r st).1 = Thrown (Error (detail_or_message l))
     | Some JNull => (handleResponse r st).1 = Thrown TypeError
     | Some _ => (handleResponse r st).1 = Thrown (Error (JStr "API request failed"))
     | None => (handleResponse r st).1 = Thrown (Error (JStr "Network error"))
     end) ∧
  (ok r = true →
     (handleResponse r st).2 = st ∧
     ∀ v, resp_json r = Some v → (handleResponse r st).1 = Returned v).
Proof.
  split; [|split].
  - intros H401. unfold handleResponse, ok. rewrite H401. cbn.
    split; [done|]. unfold TokenManager.getToken, TokenManager.removeToken.
    apply lookup_delete_eq.
  - intros Hok Hne. unfold handleResponse. rewrite Hok. cbn [negb].
    destruct (Z.eqb_spec (resp_status r) 401) as [?|_]; [done|].
    unfold errorData_of. destruct (resp_json r) as [[| | | | |l]|]; cbn [from_option id];
      try (split; reflexivity).
    rewrite error_message_object. by split.
  - intros Hok. unfold handleResponse. rewrite Hok. cbn [negb].
    destruct (resp_json r) as [v|]; split; try done.
    by intros v' [= ->].
Qed.

Lemma C10_handleResponse_cases_witness :
  handleResponse {| resp_status := 401; resp_json := None |}
                 {[ "auth_token" := "secret" ]}
  = (Thrown (Error (JStr "Authentication failed. Please login again.")),
     TokenManager.removeToken {[ "auth_token" := "secret" ]}).
Proof.
  refine (proj1 (proj1 (C10_handleResponse_cases
                          {| resp_status := 401; resp_json := None |}
                          {[ "auth_token" := "secret" ]}) _)).
  reflexivity.
Defined.

End ResponseHandler.

(** ** The server side *)

Section Triage.

Import Backend.

Local Open Scope Q_scope.

Lemma Qltb_lt (x y : Q) : Qltb x y = true ↔ x < y.
Proof.
  unfold Qltb. rewrite negb_true_iff, <- not_true_iff_false, Qle_bool_iff.
  split; [apply Qnot_le_lt | apply Qlt_not_le].
Qed.

Lemma Qltb_ge (x y : Q) : Qltb x y = false ↔ y <= x.
Proof.
  unfold Qltb. rewrite negb_false_iff. apply Qle_bool_iff.
Qed.

Lemma flag_if_nil (b : bool) (r : Reason) : flag_if b r = [] ↔ b = false.
Proof. destruct b; cbn; split; congruence. Qed.

Lemma matching_reasons_nil (pm : Q) (r : ScriptResult) :
  matching_reasons pm r = [] ↔
  ¬ (ocr_confidence r < OCR_THRESHOLD ∨
     evaluation_confidence r < EVALUATION_THRESHOLD ∨
     verification_confidence r < VERIFICATION_THRESHOLD ∨
     final_score r < pm ∨
     is_Some (processing_error r)).
Proof.
  unfold matching_reasons.
  rewrite !app_nil, !flag_if_nil.
  rewrite <- !not_true_iff_false, !Qltb_lt, bool_decide_eq_true.
  tauto.
Qed.

Lemma evaluate_is_Some (pm : Q) (r : ScriptResult) :
  is_Some (evaluate pm r) ↔ matching_reasons pm r ≠ [].
Proof.
  unfold evaluate. destruct (matching_reasons pm r) as [|x rs].
  - split; [by intros [? ?] | done].
  - split; [done | by eexists].
Qed.

Lemma evaluate_reasons (pm : Q) (r : ScriptResult) (x : Reason) (rs : list Reason) :
  matching_reasons pm r = x :: rs →
  ∃ e, evaluate pm r = Some e ∧ reasons e = x :: rs ∧
       review_status e = review_pending ∧ re_script_id e = sr_script_id r ∧
       original_score e = final_score r ∧ manual_score e = None.
Proof. intros H. unfold evaluate. rewrite H. by eexists. Qed.

(** C5: against the triage engine as the specification describes it,
    [evaluate] produces an entry exactly when one of the five conditions
    holds. A result with OCR confidence 0.55, both other confidences 0.9, a
    passing score and no error gives one entry whose only reason is "OCR
    confidence below threshold"; with passing marks 40, a score of 35 with
    all confidences at or above their thresholds and no error gives an
    entry whose only reason is "below passing marks". *)
Theorem C5_evaluate_flags_iff_any_condition :
  (∀ (pm : Q) (r : ScriptResult),
     is_Some (evaluate pm r) ↔
     (ocr_confidence r < 0.6 ∨ evaluation_confidence r < 0.7 ∨
      verification_confidence r < 0.8 ∨ final_score r < pm ∨
      is_Some (processing_error r))) ∧
  (∀ (pm : Q) (r : ScriptResult),
     ocr_confidence r == 0.55 → evaluation_confidence r == 0.9 →
     verification_confidence r == 0.9 → pm <= final_score r →
     processing_error r = None →
     ∃ e, evaluate pm r = Some e ∧ reasons e = [ocr_low] ∧
          reason_text ocr_low = Some "OCR confidence below threshold"%string) ∧
  (∀ r : ScriptResult,
     final_score r == 35 → 0.6 <= ocr_confidence r →
     0.7 <= evaluation_confidence r → 0.8 <= verification_confidence r →
     processing_error r = None →
     ∃ e, evaluate 40 r = Some e ∧ reasons e = [below_passing] ∧
          reason_text below_passing = Some "below passing marks"%string).
Proof.
  split; [|split].
  - intros pm r. rewrite evaluate_is_Some, matching_reasons_nil.
    change OCR_THRESHOLD with 0.6. change EVALUATION_THRESHOLD with 0.7.
    change VERIFICATION_THRESHOLD with 0.8.
    split; [|tauto]. intros Hnn.
    destruct (Qlt_le_dec (ocr_confidence r) 0.6); [tauto|].
    destruct (Qlt_le_dec (evaluation_confidence r) 0.7); [tauto|].
    destruct (Qlt_le_dec (verification_confidence r) 0.8); [tauto|].
    destruct (Qlt_le_dec (final_score r) pm); [tauto|].
    destruct (processing_error r) as [err|] eqn:He; [by do 4 right|].
    exfalso. apply Hnn. intros [H|[H|[H|[H|H]]]];
      try (eapply Qlt_not_le; eassumption).
    by destruct H.
  - intros pm r Ho He Hv Hs Herr.
    destruct (evaluate_reasons pm r ocr_low []) as (e & H1 & H2 & _).
    + unfold matching_reasons.
      assert (Qltb (ocr_confidence r) OCR_THRESHOLD = true) as ->.
      { apply Qltb_lt. rewrite Ho. reflexivity. }
      assert (Qltb (evaluation_confidence r) EVALUATION_THRESHOLD = false) as ->.
      { apply Qltb_ge. rewrite He. discriminate. }
      assert (Qltb (verification_confidence r) VERIFICATION_THRESHOLD = false) as ->.
      { apply Qltb_ge. rewrite Hv. discriminate. }
      assert (Qltb (final_score r) pm = false) as ->.
      { by apply Qltb_ge. }
      rewrite Herr. reflexivity.
    + by exists e.
  - intros r Hs Ho He Hv Herr.
    destruct (evaluate_reasons 40 r below_passing []) as (e & H1 & H2 & _).
    + unfold matching_reasons.
      assert (Qltb (ocr_confidence r) OCR_THRESHOLD = false) as ->.
      { by apply Qltb_ge. }
      assert (Qltb (evaluation_confidence r) EVALUATION_THRESHOLD = false) as ->.
      { by apply Qltb_ge. }
      assert (Qltb (verification_confidence r) VERIFICATION_THRESHOLD = false) as ->.
      { by apply Qltb_ge. }
      assert (Qltb (final_score r) 40 = true) as ->.
      { apply Qltb_lt. rewrite Hs. reflexivity. }
      rewrite Herr. reflexivity.
    + by exists e.
Qed.

Lemma C5_evaluate_flags_iff_any_condition_witness :
  ∃ e, evaluate 40 low_ocr_result = Some e ∧ reasons e = [ocr_low] ∧
       reason_text ocr_low = Some "OCR confidence below threshold"%string.
Proof.
  refine (proj1 (proj2 C5_evaluate_flags_iff_any_condition) 40 low_ocr_result _ _ _ _ _).
  - reflexivity.
  - reflexivity.
  - reflexivity.
  - discriminate.
  - reflexivity.
Defined.

End Triage.

Section ReviewQueue.

Import Backend.

Implicit Types (store : gmap string ReviewEntry) (e : ReviewEntry).

Lemma resolve_pending store (reviewId : string) (m : Q) (notes : string) e :
  store !! reviewId = Some e →
  review_status e = review_pending →
  ∃ e', resolve reviewId m notes store = (inl e', <[reviewId := e']> store) ∧
        review_status e' = review_resolved ∧
        manual_score e' = Some m ∧
        original_score e' = original_score e.
Proof. intros He Hp. unfold resolve. rewrite He, Hp. by eexists. Qed.

Lemma resolve_resolved store (reviewId : string) (m : Q) (notes : string) e :
  store !! reviewId = Some e →
  review_status e = review_resolved →
  resolve reviewId m notes store = (inr ReviewConflictError, store).
Proof. intros He Hp. unfold resolve. by rewrite He, Hp. Qed.

(** C7: against the review queue as the specification describes it, a
    second [resolve] of an entry fails and changes nothing: after a first
    resolution with score [m1], a second one with score [m2] returns the
    conflict error, the store is the one the first call left, the stored
    manual score is [m1], and the original automated score is still the
    entry's. *)
Theorem C7_second_resolve_rejected store (reviewId : string)
    (m1 m2 : Q) (notes1 notes2 : string) e :
  store !! reviewId = Some e →
  review_status e = review_pending →
  let first := resolve reviewId m1 notes1 store in
  let second := resolve reviewId m2 notes2 first.2 in
  (∃ e1, first.1 = inl e1) ∧
  second.1 = inr ReviewConflictError ∧
  second.2 = first.2 ∧
  manual_score <$> second.2 !! reviewId = Some (Some m1) ∧
  original_score <$> second.2 !! reviewId = Some (original_score e).
Proof.
  intros He Hp first second.
  destruct (resolve_pending store reviewId m1 notes1 e He Hp)
    as (e1 & Hr1 & Hs1 & Hm1 & Ho1).
  assert (Hl : first.2 !! reviewId = Some e1).
  { unfold first. rewrite Hr1. apply lookup_insert_eq. }
  assert (Hr2 : second = (inr ReviewConflictError, first.2)).
  { unfold second. by apply (resolve_resolved _ _ _ _ e1). }
  rewrite Hr2. cbn [fst snd]. rewrite Hl. cbn.
  rewrite Hm1, Ho1. unfold first. rewrite Hr1. split; [by exists e1 | done].
Qed.

Lemma C7_second_resolve_rejected_witness :
  let first := resolve "review-1" 42 "regraded" {[ "review-1" := pending_entry ]} in
  let second := resolve "review-1" 50 "again" first.2 in
  (∃ e1, first.1 = inl e1) ∧
  second.1 = inr ReviewConflictError ∧
  second.2 = first.2 ∧
  manual_score <$> second.2 !! "review-1" = Some (Some 42%Q) ∧
  original_score <$> second.2 !! "review-1" = Some 35%Q.
Proof.
  refine (C7_second_resolve_rejected {[ "review-1" := pending_entry ]} "review-1"
            42 50 "regraded" "again" pending_entry _ _).
  - reflexivity.
  - reflexivity.
Defined.

End ReviewQueue.

Section DispatchProperties.

Import Backend.

Context {File Result : Type} (pipeline : File → Terminal Result).

Abbreviation enqueue_all := (@enqueue_all File Result).
Abbreviation dispatch := (dispatch pipeline).

Lemma enqueue_all_spec (batch : list File) (q : WorkQueue File) :
  (enqueue_all batch q).1 = map task_handle (seq (next_task q) (length batch)) ∧
  next_task (enqueue_all batch q).2 = (next_task q + length batch)%nat ∧
  tasks (enqueue_all batch q).2
  = (tasks q ++ zip (seq (next_task q) (length batch)) batch)%list.
Proof.
  revert q. induction batch as [|f rest IH]; intros q.
  - cbn. rewrite Nat.add_0_r, app_nil_r. done.
  - cbn [Backend.enqueue_all enqueue].
    destruct (Backend.enqueue_all rest _) as [hs q2] eqn:E.
    specialize (IH {| next_task := S (next_task q);
                      tasks := (tasks q ++ [(next_task q, f)])%list |}).
    rewrite E in IH. cbn [fst snd next_task tasks] in IH.
    destruct IH as (IH1 & IH2 & IH3).
    cbn [fst snd length seq map zip zip_with]. rewrite IH1, IH2, IH3.
    rewrite <- app_assoc. cbn [app]. split; [done|]. split; [lia | done].
Qed.

Lemma handles_task_handle (l : list nat) :
  handles (map (@task_handle Result) l) = l.
Proof. induction l as [|h l IH]; cbn; [done | by f_equal]. Qed.

(** C6: against the dispatch scheduler as the specification describes it,
    with the threshold 5. A batch of at most 5 files is run within the
    call: the response holds, for each file in order, the terminal result
    of that file's own pipeline, whatever the results of its siblings, and
    nothing is queued. A larger batch gets no inline result: the response
    holds one task handle per file, all different, each queued with its
    file. *)
Theorem C6_dispatch_by_threshold (batch : list File) (q : WorkQueue File) :
  ((length batch ≤ 5)%nat →
     (dispatch batch q).2 = q ∧
     length (dispatch batch q).1 = length batch ∧
     ∀ (i : nat) (f : File), batch !! i = Some f →
       (dispatch batch q).1 !! i = Some (inline_result (pipeline f))) ∧
  ((5 < length batch)%nat →
     length (dispatch batch q).1 = length batch ∧
     Forall (λ o, is_inline o = false) (dispatch batch q).1 ∧
     length (handles (dispatch batch q).1) = length batch ∧
     NoDup (handles (dispatch batch q).1) ∧
     tasks (dispatch batch q).2
     = (tasks q ++ zip (handles (dispatch batch q).1) batch)%list).
Proof.
  unfold Backend.dispatch, REAL_TIME_THRESHOLD. split.
  - intros Hle. rewrite (proj2 (Nat.leb_le _ _) Hle). cbn [fst snd].
    split; [done|]. split; [by rewrite length_map|].
    intros i f Hf. by rewrite list_lookup_fmap, Hf.
  - intros Hgt. rewrite (proj2 (Nat.leb_gt _ _) Hgt).
    destruct (enqueue_all_spec batch q) as (H1 & _ & H3).
    rewrite H1, H3, handles_task_handle.
    rewrite length_map, length_seq.
    split; [done|]. split; [|split; [done|]; split; [apply NoDup_seq | done]].
    apply Forall_forall. intros o Ho. apply list_elem_of_fmap in Ho as (h & -> & _). done.
Qed.

End DispatchProperties.

Lemma C6_dispatch_by_threshold_witness :
  (Backend.dispatch failing_second [0; 1; 2]%nat
     {| Backend.next_task := 0; Backend.tasks := [] |}).1 !! 2%nat
  = Some (Backend.inline_result (Backend.terminal_completed 80%Z)).
Proof.
  refine (proj2 (proj2 (proj1 (C6_dispatch_by_threshold failing_second [0; 1; 2]%nat
            {| Backend.next_task := 0; Backend.tasks := [] |}) _)) 2%nat 2%nat _).
  - cbn. lia.
  - reflexivity.
Defined.

(** * Further properties of the client code *)

(** ** Algebra of the update handler *)

Section UpdateAlgebra.

Import Dashboard.

Implicit Types (m : gmap string ScriptProcessingState) (u : ProcessingUpdate)
  (o : option ScriptProcessingState).

Lemma name_or_unknown_cases (a b : jsval) :
  name_or_unknown a b
  = match a with
    | Some x => if truthy x then x else
        match b with
        | Some y => if truthy y then y else JStr "Unknown"
        | None => JStr "Unknown"
        end
    | None =>
        match b with
        | Some y => if truthy y then y else JStr "Unknown"
        | None => JStr "Unknown"
        end
    end.
Proof.
  unfold name_or_unknown, js_or, truthy_val.
  destruct a as [x|]; [destruct (truthy x) eqn:Hx|];
    destruct b as [y|]; try destruct (truthy y) eqn:Hy;
    cbn; rewrite ?Hx, ?Hy; cbn; rewrite ?Hx, ?Hy; reflexivity.
Qed.

Lemma name_or_unknown_truthy (a b : jsval) : truthy (name_or_unknown a b) = true.
Proof.
  rewrite name_or_unknown_cases.
  destruct a as [x|]; [destruct (truthy x) eqn:Hx; [done|]|];
    (destruct b as [y|]; [destruct (truthy y) eqn:Hy|]; done).
Qed.

Lemma name_or_unknown_idem (a b : jsval) :
  name_or_unknown a (Some (name_or_unknown a b)) = name_or_unknown a b.
Proof.
  rewrite (name_or_unknown_cases a (Some _)), name_or_unknown_truthy.
  rewrite (name_or_unknown_cases a b).
  destruct a as [x|]; [destruct (truthy x) eqn:Hx|]; reflexivity.
Qed.

Lemma num_or_idem (a : option Z) (t : Z) : num_or (Some (num_or a t)) t = num_or a t.
Proof.
  unfold num_or. destruct a as [n|].
  - destruct (Z.eqb_spec n 0) as [->|Hn].
    + by destruct (Z.eqb_spec t 0).
    + by destruct (Z.eqb_spec n 0).
  - by destruct (Z.eqb_spec t 0).
Qed.

Lemma spread_details_idem (x upd : option (gmap string json)) :
  spread_details (Some (spread_details x upd)) upd = spread_details x upd.
Proof.
  unfold spread_details. cbn [from_option id].
  by rewrite (assoc_L (∪)), (idemp_L (∪)).
Qed.

Lemma updatedState_idem o u :
  updatedState (Some (updatedState o u)) u = updatedState o u.
Proof.
  unfold updatedState at 1 3.
  f_equal.
  - apply name_or_unknown_idem.
  - apply name_or_unknown_idem.
  - apply spread_details_idem.
  - apply num_or_idem.
  - destruct (decide (u_status u = upd_completed)) as [|Hn]; [done|].
    cbn. by rewrite decide_False.
Qed.

Lemma updateScriptProcessing_idem u m :
  updateScriptProcessing u (updateScriptProcessing u m) = updateScriptProcessing u m.
Proof.
  unfold updateScriptProcessing at 1.
  rewrite updateScriptProcessing_lookup, updatedState_idem.
  unfold updateScriptProcessing. apply insert_insert_eq.
Qed.

(** X1: delivering the same update twice leaves the stored scripts as one
    delivery does: the handler is idempotent on redelivery. *)
Theorem update_redelivery_is_idempotent u m :
  updateScriptProcessing u (updateScriptProcessing u m) = updateScriptProcessing u m.
Proof. apply updateScriptProcessing_idem. Qed.



Lemma apply_updates_cons u (us : list ProcessingUpdate) m :
  apply_updates (u :: us) m = apply_updates us (updateScriptProcessing u m).
Proof. reflexivity. Qed.

Lemma started_at_updatedState_nonzero (st : ScriptProcessingState) u :
  started_at st ≠ 0 → started_at (updatedState (Some st) u) = started_at st.
Proof.
  intros Hnz. cbn. by destruct (Z.eqb_spec (started_at st) 0).
Qed.

(** X3: the start time of a script is fixed once it is not zero: no
    sequence of later updates, for this or any other script, changes it. A
    script that is new, or stored with start time 0, takes the timestamp of
    the update. *)
Theorem started_at_is_kept :
  (∀ (us : list ProcessingUpdate) m (sid : string) (st : ScriptProcessingState),
     m !! sid = Some st → started_at st ≠ 0 →
     started_at <$> apply_updates us m !! sid = Some (started_at st)) ∧
  (∀ u m,
     (∀ st, m !! u_script_id u = Some st → started_at st = 0) →
     started_at <$> updateScriptProcessing u m !! u_script_id u = Some (u_timestamp u)).
Proof.
  split.
  - induction us as [|u us IH]; intros m sid st Hl Hnz.
    + cbn. by rewrite Hl.
    + rewrite apply_updates_cons.
      destruct (decide (u_script_id u = sid)) as [<-|Hne].
      * rewrite (IH _ _ (updatedState (Some st) u)).
        -- by rewrite started_at_updatedState_nonzero.
        -- by rewrite updateScriptProcessing_lookup, Hl.
        -- by rewrite started_at_updatedState_nonzero.
      * apply IH; [|done]. by rewrite updateScriptProcessing_other.
  - intros u m Hz. rewrite updateScriptProcessing_lookup. cbn.
    destruct (m !! u_script_id u) as [st|] eqn:Hl; cbn; [|done].
    by rewrite (Hz st eq_refl).
Qed.

Lemma started_at_is_kept_witness :
  started_at <$> apply_updates [late_event; other_script_event; early_event]
                   {[ "script-1" := running_script ]} !! "script-1"
  = Some 100.
Proof.
  refine (proj1 started_at_is_kept [late_event; other_script_event; early_event]
            {[ "script-1" := running_script ]} "script-1" running_script _ _).
  - reflexivity.
  - discriminate.
Defined.

(** X4: the details of a script accumulate. After an update, a key of the
    update's details has the update's value and every other key keeps its
    stored value; over any sequence of updates no key of the stored details
    is ever lost. *)
Theorem details_accumulate :
  (∀ o u (k : string),
     details (updatedState o u) !! k
     = match details_get (u_details u) k with
       | Some v => Some v
       | None => o ≫= (λ st, details st !! k)
       end) ∧
  (∀ (us : list ProcessingUpdate) m (sid : string) (st : ScriptProcessingState),
     m !! sid = Some st →
     ∃ st', apply_updates us m !! sid = Some st' ∧
            dom (details st) ⊆ dom (details st')).
Proof.
  assert (Hstep : ∀ o u (k : string),
     details (updatedState o u) !! k
     = match details_get (u_details u) k with
       | Some v => Some v
       | None => o ≫= (λ st, details st !! k)
       end).
  { intros o u k. cbn. unfold spread_details, details_get.
    rewrite lookup_union.
    destruct (u_details u) as [d|]; cbn.
    - destruct (d !! k) as [v|] eqn:Hd; cbn.
      + by destruct (from_option id ∅ (details <$> o) !! k).
      + rewrite (left_id_L None _). by destruct o.
    - rewrite lookup_empty, (left_id_L None _). by destruct o. }
  split; [exact Hstep|].
  induction us as [|u us IH]; intros m sid st Hl.
  - exists st. by split.
  - rewrite apply_updates_cons.
    destruct (decide (u_script_id u = sid)) as [<-|Hne].
    + destruct (IH (updateScriptProcessing u m) (u_script_id u)
                  (updatedState (Some st) u)) as (st' & Hl' & Hsub).
      { by rewrite updateScriptProcessing_lookup, Hl. }
      exists st'. split; [done|]. etrans; [|exact Hsub].
      intros k [v Hk]%elem_of_dom. apply elem_of_dom.
      rewrite Hstep. destruct (details_get (u_details u) k); [done|].
      cbn. by rewrite Hk.
    + apply IH. by rewrite updateScriptProcessing_other.
Qed.

Lemma details_accumulate_witness :
  ∃ st', apply_updates [other_script_event; completion_event]
           {[ "script-1" := running_script ]} !! "script-1" = Some st' ∧
         dom (details running_script) ⊆ dom (details st').
Proof.
  apply (proj2 details_accumulate [other_script_event; completion_event]
           {[ "script-1" := running_script ]} "script-1" running_script).
  reflexivity.
Defined.



(** X6: scripts are never removed from the map: after any sequence of
    updates the scripts stored are those stored before and those the
    updates name. *)
Theorem scripts_are_never_removed (us : list ProcessingUpdate) m :
  dom (apply_updates us m) = dom m ∪ list_to_set (u_script_id <$> us).
Proof.
  revert m. induction us as [|u us IH]; intros m.
  - cbn. by rewrite (right_id_L ∅ (∪)).
  - rewrite apply_updates_cons, IH. unfold updateScriptProcessing.
    rewrite dom_insert_L, fmap_cons, list_to_set_cons.
    rewrite (comm_L (∪) {[u_script_id u]} (dom m)).
    by rewrite (assoc_L (∪)).
Qed.

(** X7: the completion time of a script is the timestamp of the last
    completed update received for it, or the one stored before if there was
    none; updates of another status, also later ones, leave it in place. *)
Theorem completed_at_is_last_completion (us : list ProcessingUpdate) m (sid : string) :
  apply_updates us m !! sid ≫= completed_at
  = match Observe.last_completion sid us with
    | Some t => Some t
    | None => m !! sid ≫= completed_at
    end.
Proof.
  revert m. induction us as [|u us IH]; intros m; [done|].
  rewrite apply_updates_cons, IH. cbn [Observe.last_completion].
  destruct (Observe.last_completion sid us) as [t|]; [done|].
  destruct (decide (u_script_id u = sid)) as [<-|Hne].
  - rewrite updateScriptProcessing_lookup. cbn.
    destruct (decide (u_status u = upd_completed)) as [Hc|Hc].
    + by rewrite bool_decide_eq_true_2.
    + rewrite bool_decide_eq_false_2 by (by intros [_ ?]). done.
  - rewrite updateScriptProcessing_other by done.
    by rewrite bool_decide_eq_false_2 by (by intros [? _]).
Qed.

End UpdateAlgebra.

(** ** What a script card shows *)

Section CardView.

Import Dashboard View Observe.

Local Open Scope Z_scope.

Lemma findIndex_bounds {A : Type} (p : A → bool) (l : list A) :
  -1 ≤ findIndex p l < Z.of_nat (length l).
Proof.
  induction l as [|x rest IH]; cbn [findIndex length]; [lia|].
  destruct (p x); [lia|].
  destruct (Z.ltb_spec (findIndex p rest) 0); lia.
Qed.

Lemma findIndex_lookup {A : Type} (p : A → bool) (l : list A) (i : nat) (x : A) :
  l !! i = Some x → p x = true →
  (∀ (j : nat) (y : A), (j < i)%nat → l !! j = Some y → p y = false) →
  findIndex p l = Z.of_nat i.
Proof.
  revert i. induction l as [|z rest IH]; intros i Hl Hp Hbefore; [done|].
  cbn [findIndex]. destruct i as [|i].
  - cbn in Hl. injection Hl as ->. by rewrite Hp.
  - rewrite (Hbefore 0%nat z) by (done || lia).
    rewrite (IH i); [|done..|].
    + destruct (Z.ltb_spec (Z.of_nat i) 0); lia.
    + intros j y Hj Hy. apply (Hbefore (S j) y); [lia | done].
Qed.

Lemma findIndex_none {A : Type} (p : A → bool) (l : list A) :
  (∀ x, x ∈ l → p x = false) → findIndex p l = -1.
Proof.
  induction l as [|z rest IH]; intros Hall; [done|].
  cbn [findIndex]. rewrite (Hall z) by apply list_elem_of_here.
  rewrite IH; [done|]. intros x Hx. apply Hall. by apply list_elem_of_further.
Qed.

(** X8: for every stage string the card marks exactly one of the six
    stages as current, the stages before it as completed and the stages
    after it as pending; the completed count equals the current position
    and stays below the total of 6. A known stage is current at its own
    position; a stage that is not in the list, such as ['failed'] or
    ['pending'], is shown like the first stage. *)
Theorem stage_indicators (currentStage : string) :
  let sp := getStageProgress currentStage in
  sp_completed sp = sp_current sp ∧
  0 ≤ sp_current sp < sp_total sp ∧
  sp_total sp = 6 ∧
  indicators currentStage = indicator_row (sp_current sp) ∧
  (∀ (i : nat) (s : ProcessingStage),
     PROCESSING_STAGES !! i = Some s → stage_id s = currentStage →
     sp_current sp = Z.of_nat i) ∧
  ((∀ s, s ∈ PROCESSING_STAGES → stage_id s ≠ currentStage) → sp_current sp = 0).
Proof.
  cbv zeta.
  pose proof (findIndex_bounds (λ s, String.eqb (stage_id s) currentStage)
                PROCESSING_STAGES) as Hb.
  change (Z.of_nat (length PROCESSING_STAGES)) with 6 in Hb.
  split; [|split; [|split; [|split; [|split]]]].
  - cbn [getStageProgress sp_completed sp_current].
    destruct (Z.leb_spec 0 (findIndex (λ s, String.eqb (stage_id s) currentStage)
                              PROCESSING_STAGES)); lia.
  - cbn [getStageProgress sp_total sp_current].
    change (Z.of_nat (length PROCESSING_STAGES)) with 6.
    destruct (Z.leb_spec 0 (findIndex (λ s, String.eqb (stage_id s) currentStage)
                              PROCESSING_STAGES)); lia.
  - reflexivity.
  - unfold indicators, getStageProgress.
    set (idx := findIndex _ PROCESSING_STAGES) in *. clearbody idx.
    assert (idx = -1 ∨ idx = 0 ∨ idx = 1 ∨ idx = 2 ∨ idx = 3 ∨ idx = 4 ∨ idx = 5)
      as [->|[->|[->|[->|[->|[->| ->]]]]]] by lia; reflexivity.
  - intros i s Hi Hs. cbn [getStageProgress sp_current].
    rewrite (findIndex_lookup _ _ i s Hi).
    + destruct (Z.leb_spec 0 (Z.of_nat i)); lia.
    + by apply String.eqb_eq.
    + intros j y Hj Hy. apply String.eqb_neq. subst currentStage.
      do 6 (destruct i as [|i]; [cbn in Hi; injection Hi as <-;
              do 6 (destruct j as [|j]; [cbn in Hy; injection Hy as <-; (lia || discriminate)|]);
              lia|]).
      done.
  - intros Hnone. cbn [getStageProgress sp_current].
    rewrite findIndex_none; [done|].
    intros s Hs. apply String.eqb_neq. by apply Hnone.
Qed.

Lemma stage_indicators_witness :
  sp_current (getStageProgress "ocr_completed") = 2.
Proof.
  refine (proj1 (proj2 (proj2 (proj2 (proj2 (stage_indicators "ocr_completed")))))
            2%nat _ _ _).
  - reflexivity.
  - reflexivity.
Defined.



Lemma place_Permutation (a : ScriptProcessingState) l : place a l ≡ₚ a :: l.
Proof.
  induction l as [|b rest IH]; cbn [place]; [done|].
  destruct (Z.leb (started_at b) (started_at a)); [done|].
  rewrite IH. apply Permutation_swap.
Qed.

Lemma place_sorted (a : ScriptProcessingState) l :
  StronglySorted later_first l → StronglySorted later_first (place a l).
Proof.
  induction 1 as [|b rest Hs IH Hall]; cbn [place].
  - repeat constructor.
  - destruct (Z.leb_spec (started_at b) (started_at a)).
    + constructor; [by constructor|]. constructor; [done|].
      eapply Forall_impl; [exact Hall|]. unfold later_first. intros; lia.
    + constructor; [done|]. rewrite place_Permutation.
      constructor; [unfold later_first; lia | done].
Qed.

Lemma place_filter (t : Z) (a : ScriptProcessingState) l :
  filter (λ s, started_at s = t) (place a l)
  = filter (λ s, started_at s = t) (a :: l).
Proof.
  induction l as [|b rest IH]; cbn [place]; [done|].
  destruct (Z.leb_spec (started_at b) (started_at a)); [done|].
  rewrite filter_cons, IH, !filter_cons.
  destruct (decide (started_at b = t)), (decide (started_at a = t)); try done. lia.
Qed.

(** X10: the cards are a stable sort of the scripts: every script appears
    once, a script that started later comes before one that started
    earlier, and scripts with the same start time keep their order. *)
Theorem cards_sorted_latest_first (l : list ScriptProcessingState) :
  sort_by_start l ≡ₚ l ∧
  StronglySorted later_first (sort_by_start l) ∧
  ∀ t : Z, filter (λ s, started_at s = t) (sort_by_start l)
           = filter (λ s, started_at s = t) l.
Proof.
  unfold sort_by_start. split; [|split].
  - induction l as [|a rest IH]; cbn [foldr]; [done|].
    by rewrite place_Permutation, IH.
  - induction l as [|a rest IH]; cbn [foldr]; [constructor|].
    by apply place_sorted.
  - intros t. induction l as [|a rest IH]; cbn [foldr]; [done|].
    by rewrite place_filter, !filter_cons, IH.
Qed.

End CardView.

(** ** Invariants of the connection life cycle *)

Section ConnectionInvariants.

Import Dashboard Observe.

Implicit Types (d : Component) (k : Socket) (l : list Socket).

Lemma closed_count_cons k l :
  closed_count (k :: l)
  = ((if decide (readyState k = CLOSED) then 1 else 0) + closed_count l)%nat.
Proof.
  unfold closed_count. rewrite filter_cons.
  by destruct (decide (readyState k = CLOSED)).
Qed.

Lemma closed_count_app l k :
  readyState k ≠ CLOSED → closed_count (l ++ [k]) = closed_count l.
Proof.
  intros Hk. induction l as [|x l IH]; cbn [app].
  - rewrite closed_count_cons, decide_False by done. done.
  - by rewrite !closed_count_cons, IH.
Qed.

Lemma closed_count_insert_same l (c : nat) k k' :
  l !! c = Some k →
  (readyState k' = CLOSED ↔ readyState k = CLOSED) →
  closed_count (<[c := k']> l) = closed_count l.
Proof.
  revert c. induction l as [|x l IH]; intros c Hl Hiff; [done|].
  destruct c as [|c].
  - injection Hl as ->. change (<[0%nat := k']> (k :: l)) with (k' :: l).
    rewrite !closed_count_cons.
    destruct (decide (readyState k' = CLOSED)), (decide (readyState k = CLOSED));
      tauto || done.
  - change (<[S c := k']> (x :: l)) with (x :: <[c := k']> l).
    rewrite !closed_count_cons. by rewrite (IH c).
Qed.

Lemma closed_count_insert_close l (c : nat) k k' :
  l !! c = Some k →
  readyState k ≠ CLOSED → readyState k' = CLOSED →
  closed_count (<[c := k']> l) = S (closed_count l).
Proof.
  revert c. induction l as [|x l IH]; intros c Hl Hk Hk'; [done|].
  destruct c as [|c].
  - injection Hl as ->. change (<[0%nat := k']> (k :: l)) with (k' :: l).
    rewrite !closed_count_cons.
    by rewrite decide_True, decide_False.
  - change (<[S c := k']> (x :: l)) with (x :: <[c := k']> l).
    rewrite !closed_count_cons. rewrite (IH c) by done. lia.
Qed.

Lemma inv_replace ss ts (c : nat) k k' :
  inv_lists ss ts → ss !! c = Some k →
  (readyState k' = CLOSED ↔ readyState k = CLOSED) →
  sent_shape k' →
  inv_lists (<[c := k']> ss) ts.
Proof.
  intros (Hn & Ht & Hs) Hl Hiff Hk'. split; [|split; [done|]].
  - by rewrite (closed_count_insert_same _ _ k).
  - by apply Forall_insert.
Qed.

Lemma inv_close ss ts (c : nat) k :
  inv_lists ss ts → ss !! c = Some k → readyState k ≠ CLOSED →
  inv_lists (<[c := set_readyState CLOSED k]> ss)
            (ts ++ [{| delay := 3000; t_props := ws_props k; t_pending := true |}]).
Proof.
  intros (Hn & Ht & Hs) Hl Hk. split; [|split].
  - rewrite length_app, (closed_count_insert_close _ _ k) by done. cbn. lia.
  - apply Forall_app. split; [done|]. by repeat constructor.
  - apply Forall_insert; [done|].
    pose proof (Forall_lookup_1 _ _ _ _ Hs Hl) as (H1 & H2 & H3).
    split; [discriminate|]. split; [discriminate | exact H3].
Qed.

Lemma inv_connect ss ts (p : Props) :
  inv_lists ss ts →
  inv_lists (ss ++ [{| readyState := CONNECTING; ws_props := p; sent := [] |}]) ts.
Proof.
  intros (Hn & Ht & Hs). split; [|split; [done|]].
  - by rewrite closed_count_app.
  - apply Forall_app. split; [done|]. constructor; [|constructor].
    split; [done|]. split; [discriminate | by left].
Qed.

Lemma inv_fire ss ts (t : nat) (k : Timer) :
  inv_lists ss ts → ts !! t = Some k →
  inv_lists ss (<[t := {| delay := delay k; t_props := t_props k; t_pending := false |}]> ts).
Proof.
  intros (Hn & Ht & Hs) Hl. split; [|split; [|done]].
  - by rewrite length_insert.
  - apply Forall_insert; [done|]. exact (Forall_lookup_1 _ _ _ _ Ht Hl).
Qed.

Lemma invariant_ws_send (c : nat) (scriptId : string) d :
  connection_invariant d →
  connection_invariant (ws_send c (subscribe_script scriptId) d).
Proof.
  unfold connection_invariant. intros Hinv. unfold ws_send, socket_state.
  destruct (sockets (world d) !! c) as [k|] eqn:Hl; cbn [fmap option_fmap option_map];
    [|by rewrite decide_False].
  destruct (decide (Some (readyState k) = Some OPEN)) as [Ho|]; [|done].
  injection Ho as Ho.
  rewrite world_alter_socket. cbn [sockets timers].
  rewrite (alter_is_insert _ _ _ k) by done.
  apply (inv_replace _ _ _ k); [done..| |].
  - done.
  - destruct Hinv as (_ & _ & Hs).
    pose proof (Forall_lookup_1 _ _ _ _ Hs Hl) as (_ & H2 & _).
    destruct (H2 Ho) as [ids Hids].
    assert (session_then_scripts (push_sent (subscribe_script scriptId) k)) as Hnew.
    { exists (ids ++ [scriptId])%list. cbn [push_sent sent ws_props].
      by rewrite Hids, map_app, app_assoc. }
    split; [cbn; rewrite Ho; discriminate|]. split; [done | by right].
Qed.

Lemma invariant_ws_close (c : nat) d :
  connection_invariant d → connection_invariant (ws_close c d).
Proof.
  unfold connection_invariant. intros Hinv. unfold ws_close, socket_state.
  destruct (sockets (world d) !! c) as [k|] eqn:Hl; cbn [fmap option_fmap option_map];
    [|done].
  destruct Hinv as (Hn & Ht & Hs).
  pose proof (Forall_lookup_1 _ _ _ _ Hs Hl) as (H1 & H2 & H3).
  destruct (readyState k) eqn:Hr; try done.
  - rewrite world_alter_socket. cbn [sockets timers].
    rewrite (alter_is_insert _ _ _ k) by done.
    apply (inv_replace _ _ _ k); [done..| |].
    + cbn. rewrite Hr. split; discriminate.
    + split; [discriminate|]. split; [discriminate|]. left. by apply H1.
  - rewrite world_alter_socket. cbn [sockets timers].
    rewrite (alter_is_insert _ _ _ k) by done.
    apply (inv_replace _ _ _ k); [done..| |].
    + cbn. rewrite Hr. split; discriminate.
    + split; [discriminate|]. split; [discriminate|]. right. by apply H2.
Qed.

Lemma invariant_connectWebSocket (p : Props) d :
  connection_invariant d → connection_invariant (connectWebSocket p d).
Proof.
  unfold connection_invariant, connectWebSocket. intros Hinv.
  rewrite world_setWebsocket. cbn [world with_world sockets timers].
  by apply inv_connect.
Qed.

Lemma invariant_mount (p : Props) : connection_invariant (mount p).
Proof.
  unfold mount, run_effect. unfold connection_invariant. cbn [world].
  apply (invariant_connectWebSocket p). repeat split; constructor.
Qed.

Lemma invariant_world d d' :
  world d' = world d → connection_invariant d → connection_invariant d'.
Proof. unfold connection_invariant. by intros ->. Qed.

Lemma invariant_effect_cleanup d :
  connection_invariant d → connection_invariant (effect_cleanup d).
Proof.
  intros Hinv. unfold effect_cleanup.
  destruct (cleanup_websocket d); [by apply invariant_ws_close | done].
Qed.

Lemma invariant_run_effect d :
  connection_invariant d → connection_invariant (run_effect d).
Proof.
  intros Hinv. exact (invariant_connectWebSocket (props d) d Hinv).
Qed.

Lemma invariant_step (e : Event) d :
  connection_invariant d → connection_invariant (step e d).
Proof.
  intros Hinv. destruct e as [p| |c|c data|c|c|t|scriptId].
  - cbn [step]. destruct (mounted d); [|done].
    destruct (decide (sessionId p = sessionId (props d))); [done|].
    by apply invariant_run_effect, invariant_effect_cleanup.
  - cbn [step]. destruct (mounted d); [|done].
    exact (invariant_effect_cleanup d Hinv).
  - destruct (sockets (world d) !! c) as [k|] eqn:Hl;
      [|by cbn [step]; rewrite Hl].
    destruct (decide (readyState k = CONNECTING)) as [Hr|Hr];
      [|by cbn [step]; rewrite Hl, decide_False].
    unfold connection_invariant.
    rewrite (proj1 (step_WsOpen d c k Hl Hr)). cbn [sockets timers].
    apply (inv_replace _ _ _ k); [done..| |].
    + cbn. rewrite Hr. split; discriminate.
    + destruct Hinv as (_ & _ & Hs).
      pose proof (Forall_lookup_1 _ _ _ _ Hs Hl) as (H1 & _ & _).
      assert (session_then_scripts
                {| readyState := OPEN; ws_props := ws_props k;
                   sent := sent k ++ subscriptions_on_open (ws_props k) |}) as Hnew.
      { exists []. cbn. by rewrite (H1 Hr), app_nil_r. }
      split; [discriminate|]. split; [done | by right].
  - cbn [step]. destruct (sockets (world d) !! c) as [k|]; [|done].
    destruct (decide (readyState k = OPEN)); [|done].
    destruct data as [u| | | |]; cbn [onmessage]; try done.
    unfold applyScriptUpdate. destruct (mounted d); [|done].
    unfold connection_invariant, setProcessingScripts.
    cbn [world with_world sockets timers].
    rewrite world_set_state. exact Hinv.
  - cbn [step]. destruct (sockets (world d) !! c) as [k|]; [|done].
    destruct (decide (readyState k = CLOSED)); [done|].
    eapply invariant_world; [|exact Hinv]. apply world_setConnectionError.
  - destruct (sockets (world d) !! c) as [k|] eqn:Hl;
      [|by cbn [step]; rewrite Hl].
    destruct (decide (readyState k = CLOSED)) as [Hr|Hr];
      [by cbn [step]; rewrite Hl, decide_True|].
    unfold connection_invariant.
    rewrite (step_WsClose d c k Hl Hr). cbn [sockets timers].
    by apply inv_close.
  - destruct (timers (world d) !! t) as [k|] eqn:Hl;
      [|by cbn [step]; rewrite Hl].
    destruct (t_pending k) eqn:Hp; [|by cbn [step]; rewrite Hl, Hp].
    unfold connection_invariant.
    rewrite (step_TimerFire d t k Hl Hp). cbn [sockets timers].
    by apply inv_connect, inv_fire.
  - cbn [step]. destruct (mounted d); [|done].
    unfold subscribeToScript. destruct (websocket (state d)); [|done].
    destruct (isConnected (state d)); [|done].
    by apply invariant_ws_send.
Qed.

Lemma invariant_run (es : list Event) d :
  connection_invariant d → connection_invariant (run es d).
Proof.
  revert d. induction es as [|e es IH]; intros d Hinv; [done|].
  apply (IH (step e d)). by apply invariant_step.
Qed.

(** X11: at any time after the mount, whatever happened, the dashboard has
    set exactly one reconnect timer for each connection that has closed,
    and every timer it has set has the delay of 3000 ms. *)
Theorem one_timer_per_closed_connection (p : Props) (es : list Event) :
  length (timers (world (run es (mount p))))
  = closed_count (sockets (world (run es (mount p)))) ∧
  Forall (λ t, delay t = 3000) (timers (world (run es (mount p)))).
Proof.
  destruct (invariant_run es (mount p) (invariant_mount p)) as (H1 & H2 & _).
  by split.
Qed.

(** X12: at any time after the mount, every connection has sent nothing
    while it was connecting, and a connection that is open has sent the
    session subscription of its props (if they name a session) first and
    only script subscriptions after it. *)
Theorem sent_messages_are_subscriptions (p : Props) (es : list Event) (c : nat) k :
  sockets (world (run es (mount p))) !! c = Some k →
  (readyState k = CONNECTING → sent k = []) ∧
  (readyState k = OPEN →
     ∃ ids : list string,
       sent k = (subscriptions_on_open (ws_props k) ++ map subscribe_script ids)%list) ∧
  (sent k = [] ∨
   ∃ ids : list string,
     sent k = (subscriptions_on_open (ws_props k) ++ map subscribe_script ids)%list).
Proof.
  intros Hl.
  destruct (invariant_run es (mount p) (invariant_mount p)) as (_ & _ & Hs).
  exact (Forall_lookup_1 _ _ _ _ Hs Hl).
Qed.

Lemma sent_messages_are_subscriptions_witness :
  ∃ ids : list string,
    [subscribe_session "session-1"; subscribe_script "script-1"]
    = (subscriptions_on_open session_props ++ map subscribe_script ids)%list.
Proof.
  refine (proj1 (proj2 (sent_messages_are_subscriptions session_props
            [WsOpen 0; SubscribeToScript "script-1"]%nat 0%nat
            {| readyState := OPEN; ws_props := session_props;
               sent := [subscribe_session "session-1"; subscribe_script "script-1"] |}
            _)) _).
  - reflexivity.
  - reflexivity.
Defined.

End ConnectionInvariants.

(** ** Script updates as the component receives them *)

Section Delivery.

Import Dashboard.

Implicit Types (d : Component) (k : Socket) (u : ProcessingUpdate).

Lemma step_script_update d (c : nat) k u :
  mounted d = true →
  sockets (world d) !! c = Some k →
  readyState k = OPEN →
  let d' := step (WsMessage c (script_update u)) d in
  mounted d' = true ∧
  sockets (world d') = sockets (world d) ∧
  timers (world d') = timers (world d) ∧
  completions (world d')
  = (completions (world d) ++ completion_calls (onProcessingComplete (ws_props k)) u)%list ∧
  processingScripts (state d') = updateScriptProcessing u (processingScripts (state d)).
Proof.
  intros Hm Hl Ho. cbn [step]. rewrite Hl, decide_True by done.
  cbn [onmessage]. unfold applyScriptUpdate. rewrite Hm.
  unfold setProcessingScripts, set_state. rewrite Hm. cbn.
  done.
Qed.

(** X13: the completion callback is not deduplicated. A completed update
    with a result, received on an open connection of a mounted dashboard
    whose props carry the callback, calls the callback with the result; a
    second delivery of the same update calls it again, although it leaves
    the stored scripts unchanged. *)
Theorem completion_callback_runs_on_every_delivery d (c : nat) k u
    (r : gmap string json) :
  mounted d = true →
  sockets (world d) !! c = Some k →
  readyState k = OPEN →
  onProcessingComplete (ws_props k) = true →
  u_status u = upd_completed →
  u_result u = Some r →
  let d1 := step (WsMessage c (script_update u)) d in
  let d2 := step (WsMessage c (script_update u)) d1 in
  completions (world d1) = (completions (world d) ++ [r])%list ∧
  completions (world d2) = (completions (world d) ++ [r; r])%list ∧
  processingScripts (state d2) = processingScripts (state d1).
Proof.
  intros Hm Hl Ho Hcb Hs Hr d1 d2.
  assert (Hcalls : completion_calls (onProcessingComplete (ws_props k)) u = [r]).
  { unfold completion_calls. rewrite Hr, Hcb, bool_decide_eq_true_2 by done. done. }
  destruct (step_script_update d c k u Hm Hl Ho) as (Hm1 & Hs1 & _ & Hc1 & Hp1).
  fold d1 in Hm1, Hs1, Hc1, Hp1.
  assert (Hl1 : sockets (world d1) !! c = Some k) by by rewrite Hs1.
  destruct (step_script_update d1 c k u Hm1 Hl1 Ho) as (_ & _ & _ & Hc2 & Hp2).
  fold d2 in Hc2, Hp2.
  rewrite Hcalls in Hc1, Hc2. split; [done|]. split.
  - rewrite Hc2, Hc1, <- app_assoc. done.
  - rewrite Hp2, Hp1. apply updateScriptProcessing_idem.
Qed.

Lemma completion_callback_runs_on_every_delivery_witness :
  let d := run [WsOpen 0]%nat (mount session_props) in
  let d2 := run [WsMessage 0 (script_update completion_event);
                 WsMessage 0 (script_update completion_event)]%nat d in
  completions (world d2)
  = ([] ++ [ {[ "total_score" := JNum 72 ]}; {[ "total_score" := JNum 72 ]} ])%list.
Proof.
  cbv zeta.
  refine (proj1 (proj2 (completion_callback_runs_on_every_delivery
            (run [WsOpen 0]%nat (mount session_props)) 0%nat
            {| readyState := OPEN; ws_props := session_props;
               sent := [subscribe_session "session-1"] |}
            completion_event {[ "total_score" := JNum 72 ]} _ _ _ _ _ _))).
  all: reflexivity.
Defined.

End Delivery.

(** ** The token, the headers and the auth API *)

Section AuthProperties.

Import Api Auth Startup.

Implicit Types (st : Storage) (f : FetchResult).

Lemma isAuthenticated_setToken st (token : string) :
  TokenManager.isAuthenticated (TokenManager.setToken token st) = true.
Proof.
  unfold TokenManager.isAuthenticated, TokenManager.getToken, TokenManager.setToken.
  rewrite lookup_insert_eq. by apply bool_decide_eq_true_2.
Qed.

Lemma isAuthenticated_removeToken st :
  TokenManager.isAuthenticated (TokenManager.removeToken st) = false.
Proof.
  unfold TokenManager.isAuthenticated, TokenManager.getToken, TokenManager.removeToken.
  rewrite lookup_delete_eq. apply bool_decide_eq_false_2. by intros [? ?].
Qed.

(** X14: the token manager touches one key of the storage only. A token
    that is set is read back, and the client is then authenticated; after a
    removal no token is read and the client is not authenticated; every
    other key of the storage is left as it is by both. *)
Theorem token_round_trip st (token : string) :
  TokenManager.getToken (TokenManager.setToken token st) = Some token ∧
  TokenManager.isAuthenticated (TokenManager.setToken token st) = true ∧
  TokenManager.getToken (TokenManager.removeToken st) = None ∧
  TokenManager.isAuthenticated (TokenManager.removeToken st) = false ∧
  TokenManager.removeToken (TokenManager.setToken token st) = TokenManager.removeToken st ∧
  ∀ k : string, k ≠ TokenManager.TOKEN_KEY →
    TokenManager.setToken token st !! k = st !! k ∧
    TokenManager.removeToken st !! k = st !! k.
Proof.
  unfold TokenManager.isAuthenticated, TokenManager.getToken,
    TokenManager.setToken, TokenManager.removeToken.
  rewrite lookup_insert_eq, lookup_delete_eq.
  split; [done|]. split; [by apply bool_decide_eq_true_2|]. split; [done|].
  split; [apply bool_decide_eq_false_2; by intros [? ?]|].
  split; [apply delete_insert_eq|].
  intros k Hk. by rewrite lookup_insert_ne, lookup_delete_ne.
Qed.

Lemma token_round_trip_witness :
  TokenManager.setToken "abc" {[ "theme" := "dark" ]} !! "theme" = Some "dark" ∧
  TokenManager.removeToken {[ "theme" := "dark" ]} !! "theme" = Some "dark".
Proof.
  refine (proj2 (proj2 (proj2 (proj2 (proj2
            (token_round_trip {[ "theme" := "dark" ]} "abc"))))) "theme" _).
  discriminate.
Defined.

Lemma token_given_Some st (t : string) :
  token_given st = Some t ↔ TokenManager.getToken st = Some t ∧ t ≠ "".
Proof.
  unfold token_given. destruct (TokenManager.getToken st) as [t'|].
  - destruct (String.eqb_spec t' ""); split.
    + done.
    + intros [[= ->] ?]. done.
    + intros [= ->]. done.
    + by intros [[= ->] _].
  - split; [done | by intros [? _]].
Qed.

(** X15: a request of the client carries an Authorization header exactly
    when a token is stored and is not the empty string, and the header is
    then "Bearer " followed by the token. With the empty string stored the
    client counts as authenticated but sends no Authorization header. *)
Theorem authorization_header_iff_nonempty_token st :
  (("Authorization" ∈ (getHeaders st).*1) ↔
     ∃ t, TokenManager.getToken st = Some t ∧ t ≠ "") ∧
  (("Authorization" ∈ (getMultipartHeaders st).*1) ↔
     ∃ t, TokenManager.getToken st = Some t ∧ t ≠ "") ∧
  (∀ t, TokenManager.getToken st = Some t → t ≠ "" →
        getHeaders st = [("Content-Type", "application/json");
                         ("Authorization", "Bearer " ++ t)] ∧
        getMultipartHeaders st = [("Authorization", "Bearer " ++ t)]) ∧
  (TokenManager.getToken st = Some "" →
     TokenManager.isAuthenticated st = true ∧
     getHeaders st = [("Content-Type", "application/json")] ∧
     getMultipartHeaders st = []).
Proof.
  unfold getHeaders, getMultipartHeaders.
  destruct (token_given st) as [t|] eqn:Ht.
  - apply token_given_Some in Ht as [Hg Hne].
    split; [|split; [|split]].
    + split; [by exists t|]. intros _. cbn. set_unfold. tauto.
    + split; [by exists t|]. intros _. cbn. set_unfold. tauto.
    + intros t' Hg' _. by assert (t' = t) as -> by congruence.
    + intros Hg'. congruence.
  - assert (Hnone : ∀ t, TokenManager.getToken st = Some t → t = "").
    { intros t Hg. destruct (decide (t = "")) as [|Hne]; [done|].
      assert (token_given st = Some t) by by apply token_given_Some. congruence. }
    split; [|split; [|split]].
    + split.
      * cbn. set_unfold. intros [|[]]. discriminate.
      * intros (t & Hg & Hne). by apply Hnone in Hg.
    + split.
      * cbn. set_unfold. tauto.
      * intros (t & Hg & Hne). by apply Hnone in Hg.
    + intros t Hg Hne. by apply Hnone in Hg.
    + intros Hg. split; [|done]. unfold TokenManager.isAuthenticated.
      apply bool_decide_eq_true_2. by eexists.
Qed.

Lemma authorization_header_iff_nonempty_token_witness :
  getHeaders {[ "auth_token" := "abc" ]}
  = [("Content-Type", "application/json"); ("Authorization", "Bearer abc")] ∧
  getMultipartHeaders {[ "auth_token" := "abc" ]} = [("Authorization", "Bearer abc")].
Proof.
  refine (proj1 (proj2 (proj2 (authorization_header_iff_nonempty_token
            {[ "auth_token" := "abc" ]}))) "abc" _ _).
  - reflexivity.
  - discriminate.
Defined.


Lemma handleResponse_returned (r : Response) st (v : json) st' :
  handleResponse r st = (Returned v, st') →
  st' = st ∧ ok r = true ∧ resp_json r = Some v.
Proof.
  unfold handleResponse. destruct (ok r); cbn [negb].
  - destruct (resp_json r); [|done]. by intros [= -> ->].
  - destruct (Z.eqb (resp_status r) 401); [done|].
    by destruct (error_message (errorData_of r)).
Qed.



Lemma handleResponse_401 (r : Response) st :
  resp_status r = 401 →
  handleResponse r st
  = (Thrown (Error (JStr "Authentication failed. Please login again.")),
     TokenManager.removeToken st).
Proof. intros H401. unfold handleResponse, ok. by rewrite H401. Qed.

Section LoginProperties.

Variable ToString : jsval → string.
Hypothesis ToString_string : ∀ s : string, ToString (Some (JStr s)) = s.


(** X17: a token refresh that is answered with 401 removes the stored
    token; one that fails in any other way leaves the storage as it is;
    one that succeeds stores the text of the [access_token] of the body
    and the client is authenticated. *)
Theorem refresh_token_handling f st :
  (∀ (response : Response), f = responded response → resp_status response = 401 →
     (refreshToken ToString f st).2 = TokenManager.removeToken st ∧
     TokenManager.isAuthenticated (refreshToken ToString f st).2 = false) ∧
  (∀ (e : Exn) st', refreshToken ToString f st = (Thrown e, st') →
     (∀ response, f = responded response → resp_status response ≠ 401) →
     st' = st) ∧
  (∀ (v : json) st', refreshToken ToString f st = (Returned v, st') →
     TokenManager.isAuthenticated st' = true ∧
     ∃ token, get_prop v "access_token" = Returned token ∧
              st' = TokenManager.setToken (ToString token) st).
Proof.
  split; [|split].
  - intros r -> H401. unfold refreshToken, api_call.
    rewrite (handleResponse_401 r st H401). cbn.
    split; [done|]. apply isAuthenticated_removeToken.
  - intros e st' Heq Hne. unfold refreshToken in Heq.
    destruct (api_call f st) as [[a|e'] st''] eqn:Hc.
    + destruct f as [|r]; [done|]. cbn in Hc.
      apply handleResponse_returned in Hc as (-> & _ & _).
      destruct (get_prop a "access_token"); [done | by injection Heq as _ <-].
    + injection Heq as _ <-. destruct f as [|r]; [by injection Hc as _ <-|].
      cbn in Hc. specialize (Hne r eq_refl).
      unfold handleResponse in Hc. destruct (negb (ok r)).
      * destruct (Z.eqb_spec (resp_status r) 401); [done|].
        destruct (error_message (errorData_of r)); by injection Hc as _ <-.
      * destruct (resp_json r); by injection Hc.
  - intros v st' Heq. unfold refreshToken in Heq.
    destruct (api_call f st) as [[a|e'] st''] eqn:Hc; [|done].
    destruct f as [|r]; [done|]. cbn in Hc.
    apply handleResponse_returned in Hc as (-> & _ & _).
    destruct (get_prop a "access_token") as [token|] eqn:Hp; [|done].
    injection Heq as <- <-. split.
    + apply isAuthenticated_setToken.
    + by exists token.
Qed.

End LoginProperties.


Lemma refresh_token_handling_witness :
  (refreshToken text_of (responded unauthorized) {[ "auth_token" := "old" ]}).2
  = TokenManager.removeToken {[ "auth_token" := "old" ]}.
Proof.
  refine (proj1 (proj1 (refresh_token_handling text_of (responded unauthorized)
            {[ "auth_token" := "old" ]}) unauthorized _ _)).
  - reflexivity.
  - reflexivity.
Defined.



End AuthProperties.

(** ** The selection and what is posted *)

Section UploadProperties.

Import Api Upload UploadPage.

Lemma validFiles_well_formed (fileArray : list File) :
  Forall well_formed (validFiles fileArray).
Proof.
  apply Forall_forall. intros g Hg. by apply elem_of_validFiles in Hg as [_ ?].
Qed.

Lemma select_step_well_formed (files : list File) (e : SelectionEvent) :
  Forall well_formed files → Forall well_formed (select_step files e).
Proof.
  intros Hall. destruct e as [[fileArray|]|index|]; cbn.
  - apply validFiles_well_formed.
  - done.
  - by apply Forall_delete.
  - constructor.
Qed.

Lemma select_run_well_formed (es : list SelectionEvent) (files : list File) :
  Forall well_formed files → Forall well_formed (foldl select_step files es).
Proof.
  revert files. induction es as [|e es IH]; intros files Hall; [done|].
  cbn [foldl]. by apply IH, select_step_well_formed.
Qed.

Lemma form_files_uploadBatch (sessionId : string) (files : list File) :
  form_files (uploadBatch_form sessionId files) = files.
Proof. apply uploadBatch_form_files. Qed.

(** X19: whatever files are chosen, removed and uploaded on the page, in
    any order, the selection holds well-formed files only (type starting
    with [image/], at most 10 MB). An upload is refused without a request
    when no session is selected or the selection is empty; otherwise the
    form posted names the selected session and holds exactly the selected
    files, in order, so every file posted is well-formed. *)
Theorem posted_files_are_well_formed (es : list SelectionEvent) (selectedSession : string) :
  Forall well_formed (select_run es) ∧
  (selectedSession = "" ∨ select_run es = [] ↔
     ∃ t, upload_start selectedSession (select_run es) = refused t) ∧
  (∀ form, upload_start selectedSession (select_run es) = posted form →
     selectedSession ≠ "" ∧
     form !! 0%nat = Some ("session_id", form_text selectedSession) ∧
     form_files form = select_run es ∧
     form_files form ≠ [] ∧
     Forall well_formed (form_files form)).
Proof.
  assert (Hwf : Forall well_formed (select_run es)).
  { apply select_run_well_formed. constructor. }
  split; [exact Hwf|]. unfold upload_start.
  destruct (String.eqb_spec selectedSession "") as [->|Hs].
  - split; [split; [by eexists | by left] | done].
  - destruct (select_run es) as [|f files] eqn:Hrun; cbn [length Nat.eqb].
    + split; [split; [by eexists | by right] | done].
    + split.
      * split; [by intros [?|?] | by intros [? ?]].
      * intros form [= <-]. rewrite form_files_uploadBatch. done.
Qed.

Lemma posted_files_are_well_formed_witness :
  Forall well_formed
    (form_files (uploadBatch_form "session-1"
       [ {| file_name := "a.png"; file_type := "image/png"; file_size := 2048 |} ])).
Proof.
  refine (proj2 (proj2 (proj2 (proj2 (proj2 (proj2 (posted_files_are_well_formed
    [Choose (Some [ {| file_name := "a.png"; file_type := "image/png"; file_size := 2048 |};
                    {| file_name := "b.pdf"; file_type := "application/pdf";
                       file_size := 10 |} ])]
    "session-1")) _ _))))).
  reflexivity.
Defined.

Lemma toasts_count (fileArray : list File) :
  (length (validFiles fileArray) + length (toasts fileArray))%nat = length fileArray.
Proof.
  unfold toasts. induction fileArray as [|f rest IH]; [done|].
  cbn [validFiles omap list_omap]. unfold keeps.
  destruct (validate f); cbn [length]; lia.
Qed.

(** X20: of the files chosen, each one is either kept in the selection or
    reported by one toast, never both and never neither: the kept files and
    the toasts together are as many as the files chosen; a rejected file is
    reported as not an image when its type does not start with [image/], and
    as too large otherwise. Choosing nothing ([null]) changes nothing. *)
Theorem every_chosen_file_is_kept_or_reported (fileArray selected : list File) :
  (length (handleFileSelect (Some fileArray) selected).1
   + length (handleFileSelect (Some fileArray) selected).2)%nat = length fileArray ∧
  (∀ f, validate f = None ↔ well_formed f) ∧
  (∀ f t, validate f = Some t →
     title t = (if String.prefix "image/" (file_type f)
                then "File Too Large" else "Invalid File")) ∧
  handleFileSelect None selected = (selected, []).
Proof.
  split; [apply toasts_count|]. split; [|split; [|done]].
  - intros f. rewrite <- keeps_well_formed. unfold keeps.
    destruct (validate f); split; done.
  - intros f t. unfold validate.
    destruct (String.prefix "image/" (file_type f)); cbn [negb].
    + destruct (Z.ltb MAX_SIZE (file_size f)); [by intros [= <-] | done].
    + by intros [= <-].
Qed.

Lemma every_chosen_file_is_kept_or_reported_witness :
  title {| title := "File Too Large"; description := "big.png is larger than 10MB";
           variant := "destructive" |}
  = (if String.prefix "image/" "image/png" then "File Too Large" else "Invalid File").
Proof.
  refine (proj1 (proj2 (proj2 (every_chosen_file_is_kept_or_reported [] [])))
            {| file_name := "big.png"; file_type := "image/png"; file_size := 20000000 |}
            _ _).
  reflexivity.
Defined.

End UploadProperties.

(** ** The effect cleanup and the current connection *)

Section StaleCleanup.

Import Dashboard Observe.

Implicit Types (d : Component) (k : Socket).

Lemma stale_cells d d' : cells d' = cells d → cleanup_is_stale d → cleanup_is_stale d'.
Proof.
  unfold cells, cleanup_is_stale. intros [= Hw Hc Hn]. rewrite Hw, Hc, Hn. done.
Qed.

Lemma cells_alter_socket (f : Socket → Socket) (c : nat) d :
  cells (alter_socket f c d) = cells d.
Proof. unfold cells. cbn. by rewrite length_alter. Qed.

Lemma cells_setIsConnected b d : cells (setIsConnected b d) = cells d.
Proof. unfold cells, setIsConnected, set_state. by destruct (mounted d). Qed.

Lemma cells_setConnectionError e d : cells (setConnectionError e d) = cells d.
Proof. unfold cells, setConnectionError, set_state. by destruct (mounted d). Qed.

Lemma cells_setProcessingScripts f d : cells (setProcessingScripts f d) = cells d.
Proof. unfold cells, setProcessingScripts, set_state. by destruct (mounted d). Qed.

Lemma cells_ws_send (c : nat) (m : Outgoing) d : cells (ws_send c m d) = cells d.
Proof.
  unfold ws_send. destruct (decide _); [apply cells_alter_socket | done].
Qed.

Lemma cells_ws_close (c : nat) d : cells (ws_close c d) = cells d.
Proof.
  unfold ws_close. destruct (socket_state c d) as [[| | |]|];
    (apply cells_alter_socket || done).
Qed.

Lemma cells_effect_cleanup d : cells (effect_cleanup d) = cells d.
Proof.
  unfold effect_cleanup. destruct (cleanup_websocket d); [apply cells_ws_close | done].
Qed.

Lemma cells_connectWebSocket (p : Props) d :
  cells (connectWebSocket p d)
  = (if mounted d then Some (length (sockets (world d))) else websocket (state d),
     cleanup_websocket d,
     S (length (sockets (world d)))).
Proof.
  unfold cells, connectWebSocket, setWebsocket, set_state. cbn [mounted with_world].
  destruct (mounted d); cbn; rewrite length_app; cbn; repeat f_equal; lia.
Qed.

Lemma stale_connectWebSocket (p : Props) d :
  cleanup_is_stale d → cleanup_is_stale (connectWebSocket p d).
Proof.
  intros [Hw Hc]. pose proof (cells_connectWebSocket p d) as Hcells.
  unfold cells in Hcells. injection Hcells as H1 H2 H3.
  unfold cleanup_is_stale. rewrite H1, H2, H3. split.
  - intros w. destruct (mounted d).
    + intros [= <-]. lia.
    + intros Hd. specialize (Hw w Hd). lia.
  - intros c Hcc. destruct (Hc c Hcc) as [Hlt Hcw]. split; [lia|].
    intros w. destruct (mounted d).
    + intros [= <-]. lia.
    + apply Hcw.
Qed.

Lemma stale_run_effect d :
  mounted d = true → cleanup_is_stale d → cleanup_is_stale (run_effect d).
Proof.
  intros Hm [Hw Hc]. pose proof (cells_connectWebSocket (props d) d) as Hcells.
  unfold cells in Hcells. rewrite Hm in Hcells. injection Hcells as H1 H2 H3.
  unfold run_effect, cleanup_is_stale. cbn [state world cleanup_websocket].
  rewrite H1, H3. split.
  - intros w [= <-]. lia.
  - intros c Hcc. specialize (Hw c Hcc). split; [lia|].
    intros w [= <-]. lia.
Qed.

Lemma mounted_ws_close (c : nat) d : mounted (ws_close c d) = mounted d.
Proof. unfold ws_close. by destruct (socket_state c d) as [[| | |]|]. Qed.

Lemma mounted_effect_cleanup d : mounted (effect_cleanup d) = mounted d.
Proof.
  unfold effect_cleanup. destruct (cleanup_websocket d); [apply mounted_ws_close | done].
Qed.

Lemma stale_mount (p : Props) : cleanup_is_stale (mount p).
Proof.
  unfold mount. apply stale_run_effect; [done|]. by split.
Qed.

Lemma stale_step (e : Event) d :
  cleanup_is_stale d → cleanup_is_stale (step e d).
Proof.
  intros Hst. destruct e as [p| |c|c data|c|c|t|scriptId]; cbn [step].
  - destruct (mounted d) eqn:Hm; [|done].
    destruct (decide (sessionId p = sessionId (props d))); [done|].
    apply stale_run_effect.
    + by rewrite mounted_effect_cleanup.
    + eapply stale_cells; [apply cells_effect_cleanup | done].
  - destruct (mounted d); [|done].
    eapply stale_cells; [|exact Hst].
    change (cells (set_unmounted (effect_cleanup d))) with (cells (effect_cleanup d)).
    apply cells_effect_cleanup.
  - destruct (sockets (world d) !! c) as [k|]; [|done].
    destruct (decide (readyState k = CONNECTING)); [|done].
    eapply stale_cells; [|exact Hst]. unfold onopen.
    destruct (session_given (ws_props k));
      rewrite ?cells_ws_send, cells_setConnectionError, cells_setIsConnected;
      apply cells_alter_socket.
  - destruct (sockets (world d) !! c) as [k|]; [|done].
    destruct (decide (readyState k = OPEN)); [|done].
    destruct data as [u| | | |]; cbn [onmessage]; try done.
    unfold applyScriptUpdate. destruct (mounted d); [|done].
    eapply stale_cells; [|exact Hst].
    change (cells (with_world ?f ?x)) with (cells x).
    apply cells_setProcessingScripts.
  - destruct (sockets (world d) !! c) as [k|]; [|done].
    destruct (decide (readyState k = CLOSED)); [done|].
    eapply stale_cells; [|exact Hst]. apply cells_setConnectionError.
  - destruct (sockets (world d) !! c) as [k|]; [|done].
    destruct (decide (readyState k = CLOSED)); [done|].
    eapply stale_cells; [|exact Hst]. unfold onclose, setTimeout.
    change (cells (with_world ?f ?x)) with (cells x).
    rewrite cells_setIsConnected. apply cells_alter_socket.
  - destruct (timers (world d) !! t) as [k|]; [|done].
    destruct (t_pending k); [|done].
    apply stale_connectWebSocket.
    eapply stale_cells; [|exact Hst]. reflexivity.
  - destruct (mounted d); [|done]. unfold subscribeToScript.
    destruct (websocket (state d)); [|done].
    destruct (isConnected (state d)); [|done].
    eapply stale_cells; [apply cells_ws_send | done].
Qed.

Lemma stale_run (es : list Event) d :
  cleanup_is_stale d → cleanup_is_stale (run es d).
Proof.
  revert d. induction es as [|e es IH]; intros d Hst; [done|].
  apply (IH (step e d)). by apply stale_step.
Qed.

Lemma sockets_ws_close_other (c w : nat) d :
  c ≠ w → sockets (world (ws_close c d)) !! w = sockets (world d) !! w.
Proof.
  intros Hne. unfold ws_close.
  destruct (socket_state c d) as [[| | |]|]; try done;
    rewrite world_alter_socket; cbn [sockets]; by rewrite list_lookup_alter_ne.
Qed.

(** X21: the cleanup of the effect never closes the current connection.
    At any time after the mount, the connection stored in [websocket] is
    left as it is by an unmount and by the cleanup that precedes a
    reconnect for a new session id: the cleanup closes the connection that
    was current when the effect last ran, an older one, or none. *)
Theorem cleanup_never_closes_current_connection (p : Props) (es : list Event) (w : nat) :
  let d := run es (mount p) in
  websocket (state d) = Some w →
  cleanup_websocket d ≠ Some w ∧
  sockets (world (effect_cleanup d)) !! w = sockets (world d) !! w ∧
  sockets (world (step Unmount d)) !! w = sockets (world d) !! w.
Proof.
  cbv zeta. intros Hw.
  destruct (stale_run es (mount p) (stale_mount p)) as [_ Hc].
  set (d := run es (mount p)) in *.
  assert (Hne : cleanup_websocket d ≠ Some w).
  { intros Hcw. destruct (Hc w Hcw) as [_ Hlt]. specialize (Hlt w Hw). lia. }
  assert (Hcl : sockets (world (effect_cleanup d)) !! w = sockets (world d) !! w).
  { unfold effect_cleanup. destruct (cleanup_websocket d) as [c|]; [|done].
    apply sockets_ws_close_other. congruence. }
  split; [done|]. split; [done|].
  cbn [step]. by destruct (mounted d).
Qed.

Lemma cleanup_never_closes_current_connection_witness :
  sockets (world (step Unmount (run [WsOpen 0]%nat (mount session_props)))) !! 0%nat
  = sockets (world (run [WsOpen 0]%nat (mount session_props))) !! 0%nat.
Proof.
  refine (proj2 (proj2 (cleanup_never_closes_current_connection session_props
            [WsOpen 0]%nat 0%nat _))).
  reflexivity.
Defined.

End StaleCleanup.

(** ** Which session a reconnect subscribes to *)

Section ReconnectProps.

Import Dashboard.

Implicit Types (d : Component) (k : Socket).

(** X22: a reconnect belongs to the lost connection, not to the current
    props. When a connection that is not closed closes, the timer it sets
    fires and the new connection opens, the new connection has the props
    the lost connection was created with and sends the session
    subscription of those props, whatever the props of the dashboard are by
    then. *)
Theorem reconnect_keeps_props_of_lost_connection d (c : nat) k :
  sockets (world d) !! c = Some k →
  readyState k ≠ CLOSED →
  let t := length (timers (world d)) in
  let n := length (sockets (world d)) in
  sockets (world (run [WsClose c; TimerFire t; WsOpen n] d)) !! n
  = Some {| readyState := OPEN; ws_props := ws_props k;
            sent := subscriptions_on_open (ws_props k) |}.
Proof.
  intros Hl Hr t n. cbn [run foldl].
  pose proof (step_WsClose d c k Hl Hr) as H1.
  set (d1 := step (WsClose c) d) in *.
  assert (Ht : timers (world d1) !! t
               = Some {| delay := 3000; t_props := ws_props k; t_pending := true |}).
  { rewrite H1. cbn [timers]. unfold t. rewrite lookup_app_r by lia.
    by rewrite Nat.sub_diag. }
  pose proof (step_TimerFire d1 t _ Ht eq_refl) as H2.
  set (d2 := step (TimerFire t) d1) in *.
  assert (Hn : sockets (world d2) !! n
               = Some {| readyState := CONNECTING; ws_props := ws_props k; sent := [] |}).
  { rewrite H2, H1. cbn [sockets t_props]. unfold n.
    rewrite lookup_app_r by (rewrite length_insert; lia).
    by rewrite length_insert, Nat.sub_diag. }
  destruct (step_WsOpen d2 n _ Hn eq_refl) as [H3 _].
  rewrite H3. cbn [sockets]. rewrite list_lookup_insert_eq; [done|].
  by eapply lookup_lt_Some.
Qed.

Lemma reconnect_keeps_props_of_lost_connection_witness :
  let d := run [WsOpen 0;
                PropsChange {| sessionId := Some "session-2"; onProcessingComplete := true |};
                WsOpen 1]%nat (mount session_props) in
  sockets (world (run [WsClose 0; TimerFire 0; WsOpen 2]%nat d)) !! 2%nat
  = Some {| readyState := OPEN; ws_props := session_props;
            sent := subscriptions_on_open session_props |}.
Proof.
  cbv zeta.
  refine (reconnect_keeps_props_of_lost_connection
            (run [WsOpen 0;
                  PropsChange {| sessionId := Some "session-2";
                                 onProcessingComplete := true |};
                  WsOpen 1]%nat (mount session_props))
            0%nat
            {| readyState := OPEN; ws_props := session_props;
               sent := [subscribe_session "session-1"] |} _ _).
  - reflexivity.
  - discriminate.
Defined.

End ReconnectProps.
